(** * Stationary subspace analysis (SSA) training module

    A shallow embedding of [synthetic/sssa.py]: the [SSA] Lightning module
    with its reconstruction loss, the ELBO composition of the training and
    validation steps, the masked routing through the per-domain flow bank,
    the running-best bookkeeping of the validation step, the construction of
    the flow bank and the choice of the optimizer.

    Tensors of floating-point numbers are idealised as lists of real
    numbers: a rank-1 tensor is a [list R], a rank-2 tensor a list of rows.
    Every entry is then finite; the masked selection of the flow outputs,
    where an infinite entry changes the result, is modelled a second time on
    entries that may be infinite or [nan].
    Python exceptions are the [Raise] results of an error monad;
    [TorchError] stands for any exception raised inside a torch routine. *)

From Stdlib Require Import String Ascii.
From Stdlib Require Import Reals Lra Lia ZArith Bool List.
Import ListNotations.
Open Scope R_scope.

(** ** Exceptions and results *)

Inductive exception : Type :=
| AssertionError
| UnboundLocalError
| NotImplementedError
| IndexError
| KeyError
| TorchError.

Inductive result (A : Type) : Type :=
| Ok (a : A)
| Raise (e : exception).

Arguments Ok {A} a.
Arguments Raise {A} e.

Definition rbind {A B : Type} (r : result A) (k : A -> result B) : result B :=
  match r with
  | Ok a => k a
  | Raise e => Raise e
  end.

Fixpoint rmapM {A B : Type} (f : A -> result B) (l : list A) : result (list B) :=
  match l with
  | [] => Ok []
  | a :: l' =>
      rbind (f a) (fun b => rbind (rmapM f l') (fun bs => Ok (b :: bs)))
  end.

(** ** Tensors *)

Definition tensor1 : Type := list R.
Definition tensor2 : Type := list tensor1.
Definition tensor3 : Type := list tensor2.

Fixpoint map2 {A B C : Type} (f : A -> B -> C) (l1 : list A) (l2 : list B)
  : list C :=
  match l1, l2 with
  | a :: l1', b :: l2' => f a b :: map2 f l1' l2'
  | _, _ => []
  end.

Fixpoint map3 {A B C D : Type} (f : A -> B -> C -> D)
  (l1 : list A) (l2 : list B) (l3 : list C) : list D :=
  match l1, l2, l3 with
  | a :: l1', b :: l2', c :: l3' => f a b c :: map3 f l1' l2' l3'
  | _, _, _ => []
  end.

(** [t.sum()] and [t.mean()] of a rank-1 tensor. *)
Definition sum1 (v : tensor1) : R := fold_right Rplus 0 v.
Definition mean1 (v : tensor1) : R := sum1 v / INR (List.length v).

(** [torch.sum(t, dim=-1)] of a rank-2 tensor. *)
Definition sum_last (t : tensor2) : tensor1 := map sum1 t.

(** [t[:, :n]] and [t[:, n:]]. *)
Definition cols_to (n : nat) (t : tensor2) : tensor2 := map (firstn n) t.
Definition cols_from (n : nat) (t : tensor2) : tensor2 := map (skipn n) t.

Definition zeros_like (t : tensor2) : tensor2 := map (map (fun _ => 0)) t.
Definition ones_like (t : tensor2) : tensor2 := map (map (fun _ => 1)) t.

(** [torch.exp(t / 2)]. *)
Definition exp_half (t : tensor2) : tensor2 := map (map (fun v => exp (v / 2))) t.

(** [F.sigmoid]. *)
Definition F_sigmoid (t : tensor2) : tensor2 :=
  map (map (fun v => 1 / (1 + exp (- v)))) t.

(** [torch.cat([a, b], dim=1)]: the rows are joined pairwise; the two tensors
    must have as many rows. *)
Definition torch_cat1 (a b : tensor2) : result tensor2 :=
  if Nat.eqb (List.length a) (List.length b)
  then Ok (map2 (@app R) a b)
  else Raise TorchError.

(** *** [torch.distributions] *)

(** [D.Normal(loc, scale)], elementwise over a rank-2 tensor. *)
Record Normal : Type := D_Normal { loc : tensor2; scale : tensor2 }.

(** One entry of [Normal.log_prob]:
    [-((value - loc) ** 2) / (2 * var) - log_scale - log(sqrt(2 * pi))]. *)
Definition normal_log_prob (l s value : R) : R :=
  - ((value - l) ^ 2) / (2 * s ^ 2) - ln s - ln (sqrt (2 * PI)).

Definition log_prob (d : Normal) (value : tensor2) : tensor2 :=
  map3 (map3 normal_log_prob) (loc d) (scale d) value.

(** [D.MultivariateNormal(zeros(s_dim), eye(s_dim)).log_prob], one value per
    row: minus half of [s_dim * log(2 pi)] plus the squared distance to the
    mean, the half log-determinant of the identity being zero. *)
Definition base_dist_log_prob (s_dim : nat) (es : tensor2) : tensor1 :=
  map (fun e => - (1 / 2) * (INR s_dim * ln (2 * PI)
                             + sum1 (map (fun v => (v - 0) ^ 2) e)) - 0) es.

(** *** One-hot masks, stacking and reshaping *)

Definition label_in_range (num_classes : nat) (l : Z) : bool :=
  (0 <=? l)%Z && (l <? Z.of_nat num_classes)%Z.

(** [F.one_hot(c, num_classes)]: an integer mask; a negative label or one
    that is not below [num_classes] is an error. *)
Definition F_one_hot (c : list Z) (num_classes : nat) : result (list (list Z)) :=
  if forallb (label_in_range num_classes) c
  then Ok (map (fun l =>
                  map (fun k => if (Z.of_nat k =? l)%Z then 1%Z else 0%Z)
                      (seq 0 num_classes)) c)
  else Raise TorchError.

(** [torch.stack(ts, axis=1)]: entry [b][k] of the result is entry [b] of the
    [k]-th tensor. The list must not be empty and its tensors must have the
    shape of the first one ([same] compares two shapes). *)
Definition torch_stack1 {A : Type} (same : list A -> list A -> bool) (d : A)
  (ts : list (list A)) : result (list (list A)) :=
  match ts with
  | [] => Raise TorchError
  | t0 :: _ =>
      if forallb (same t0) ts
      then Ok (map (fun b => map (fun t => nth b t d) ts)
                   (seq 0 (List.length t0)))
      else Raise TorchError
  end.

Definition same_shape1 (a b : tensor1) : bool :=
  Nat.eqb (List.length a) (List.length b).

Definition same_shape2 (a b : tensor2) : bool :=
  if list_eq_dec Nat.eq_dec (map (@List.length R) a) (map (@List.length R) b)
  then true else false.

(** [(es * mask.unsqueeze(-1)).sum(1)] on a stacked [batch, nclass, s]
    tensor: every vector of row [b] is scaled by its mask entry and the
    [nclass] scaled vectors are added. Both operands carry one row per batch
    row (broadcasting of a batch axis of size one is left out), and the
    entries are finite; [masked_sum3_ieee] below has the broadcasting and the
    non-finite entries. *)
Definition vadd (u v : tensor1) : tensor1 := map2 Rplus u v.

Definition sum_axis0 (m : tensor2) : tensor1 :=
  fold_right vadd (map (fun _ => 0) (hd [] m)) m.

Definition masked_sum3 (es : tensor3) (mask : list (list Z)) : result tensor2 :=
  if Nat.eqb (List.length es) (List.length mask)
  then Ok (map2 (fun slab mrow =>
                   sum_axis0 (map2 (fun e m => map (fun v => v * IZR m) e)
                                   slab mrow))
                es mask)
  else Raise TorchError.

(** [(logabsdet * mask).sum(1)] on a stacked [batch, nclass] tensor of
    finite entries; see [masked_sum2_ieee] for the others. *)
Definition masked_sum2 (logabsdet : tensor2) (mask : list (list Z))
  : result tensor1 :=
  if Nat.eqb (List.length logabsdet) (List.length mask)
  then Ok (map2 (fun lrow mrow => sum1 (map2 (fun v m => v * IZR m) lrow mrow))
                logabsdet mask)
  else Raise TorchError.

(** [t.reshape(rows, cols)]: the entries, read row by row, are regrouped; the
    number of entries must be [rows * cols]. *)
Definition reshape (rows cols : nat) (t : tensor2) : result tensor2 :=
  let flat := concat t in
  if Nat.eqb (List.length flat) (rows * cols)
  then Ok (map (fun i => firstn cols (skipn (i * cols) flat)) (seq 0 rows))
  else Raise TorchError.

(** ** Strings *)

(** [str.lower] on the ASCII letters; every other byte is kept. No character
    outside ASCII lowers to a letter of [adam] or [rmsprop], so the
    comparisons of [configure_optimizers] are not affected. *)
Definition lower_ascii (ch : ascii) : ascii :=
  let n := nat_of_ascii ch in
  if (Nat.leb 65 n && Nat.leb n 90)%bool then ascii_of_nat (n + 32) else ch.

Fixpoint lower (s : string) : string :=
  match s with
  | EmptyString => EmptyString
  | String ch s' => String (lower_ascii ch) (lower s')
  end.

(** ** Non-finite entries and the masked selection

    Over the reals every entry is finite. The masked selection of lines
    177-182 multiplies the outputs of all the flows by a 0/1 mask, and there
    the non-finite values of IEEE 754 matter: [0 * inf] is [nan]. This part
    models the same lines on entries that are a finite real, an infinity or
    [nan]; rounding is left out, and so are signed zeros, which compare
    equal. *)

Inductive fl : Type :=
| Fin (r : R)
| PInf
| NInf
| NaN.

Definition is_finite (v : fl) : bool :=
  match v with
  | Fin _ => true
  | _ => false
  end.

(** An infinity of sign [positive] scaled by the finite [x]. *)
Definition fl_scale_inf (x : R) (positive : bool) : fl :=
  if Rlt_dec 0 x then (if positive then PInf else NInf)
  else if Rlt_dec x 0 then (if positive then NInf else PInf)
  else NaN.

Definition fl_mul (a b : fl) : fl :=
  match a, b with
  | NaN, _ => NaN
  | _, NaN => NaN
  | Fin x, Fin y => Fin (x * y)
  | Fin x, PInf => fl_scale_inf x true
  | Fin x, NInf => fl_scale_inf x false
  | PInf, Fin y => fl_scale_inf y true
  | NInf, Fin y => fl_scale_inf y false
  | PInf, PInf => PInf
  | NInf, NInf => PInf
  | PInf, NInf => NInf
  | NInf, PInf => NInf
  end.

Definition fl_add (a b : fl) : fl :=
  match a, b with
  | NaN, _ => NaN
  | _, NaN => NaN
  | Fin x, Fin y => Fin (x + y)
  | Fin _, PInf => PInf
  | Fin _, NInf => NInf
  | PInf, Fin _ => PInf
  | NInf, Fin _ => NInf
  | PInf, PInf => PInf
  | NInf, NInf => NInf
  | PInf, NInf => NaN
  | NInf, PInf => NaN
  end.

Definition ftensor1 : Type := list fl.
Definition ftensor2 : Type := list ftensor1.
Definition ftensor3 : Type := list ftensor2.

(** The shapes [torch.stack] compares. *)
Definition same_length {A : Type} (a b : list A) : bool :=
  Nat.eqb (List.length a) (List.length b).

Definition same_rows {A : Type} (a b : list (list A)) : bool :=
  if list_eq_dec Nat.eq_dec (map (@List.length A) a) (map (@List.length A) b)
  then true else false.

(** A binary operation along the batch axis of two tensors, with the
    broadcasting of torch: the axes agree, or one of them has size one and
    its single row meets every row of the other tensor. *)
Definition broadcast_rows {A B C : Type} (f : A -> B -> C)
  (l1 : list A) (l2 : list B) : result (list C) :=
  if Nat.eqb (List.length l1) (List.length l2)
  then Ok (map2 f l1 l2)
  else match l1, l2 with
       | [a], _ => Ok (map (f a) l2)
       | _, [b] => Ok (map (fun a => f a b) l1)
       | _, _ => Raise TorchError
       end.

Definition fvadd (u v : ftensor1) : ftensor1 := map2 fl_add u v.

Definition fsum1 (v : ftensor1) : fl := fold_right fl_add (Fin 0) v.

Definition fsum_axis0 (m : ftensor2) : ftensor1 :=
  fold_right fvadd (map (fun _ => Fin 0) (hd [] m)) m.

(** [(es * mask.unsqueeze(-1)).sum(1)]. *)
Definition masked_sum3_ieee (es : ftensor3) (mask : list (list Z))
  : result ftensor2 :=
  broadcast_rows
    (fun slab mrow =>
       fsum_axis0 (map2 (fun e m => map (fun v => fl_mul v (Fin (IZR m))) e)
                        slab mrow))
    es mask.

(** [(logabsdet * mask).sum(1)]. *)
Definition masked_sum2_ieee (logabsdet : ftensor2) (mask : list (list Z))
  : result ftensor1 :=
  broadcast_rows
    (fun lrow mrow => fsum1 (map2 (fun v m => fl_mul v (Fin (IZR m))) lrow mrow))
    logabsdet mask.

(** [t.reshape(rows, cols)] on entries of any kind. *)
Definition reshape_rows {A : Type} (rows cols : nat) (t : list (list A))
  : result (list (list A)) :=
  let flat := concat t in
  if Nat.eqb (List.length flat) (rows * cols)
  then Ok (map (fun i => firstn cols (skipn (i * cols) flat)) (seq 0 rows))
  else Raise TorchError.

(** Lines 169 and 177-182 on the outputs [outs] of the [nclass] flows, the
    pairs [(es_c, logabsdet_c)] the loop of lines 173-176 has collected. *)
Definition masked_select_ieee (outs : list (ftensor2 * ftensor1))
  (n s batch_size : nat) (c : list Z) : result (ftensor2 * ftensor1) :=
  rbind (F_one_hot c n) (fun one_hot =>
  rbind (torch_stack1 same_rows [] (map fst outs)) (fun es =>
  rbind (torch_stack1 same_length (Fin 0) (map snd outs)) (fun logabsdet =>
  let mask := one_hot in
  rbind (masked_sum3_ieee es mask) (fun es =>
  rbind (masked_sum2_ieee logabsdet mask) (fun logabsdet =>
  rbind (reshape_rows batch_size s es) (fun es =>
  Ok (es, logabsdet))))))).

(** Per-row gather on the same outputs: row [b] with label [k] takes row [b]
    of the outputs of flow [k]. *)
Definition gather_ieee (outs : list (ftensor2 * ftensor1)) (c : list Z)
  (batch_size : nat) : ftensor2 * ftensor1 :=
  (map2 (fun b k => nth b (fst (nth (Z.to_nat k) outs ([], []))) [])
        (seq 0 batch_size) c,
   map2 (fun b k => nth b (snd (nth (Z.to_nat k) outs ([], []))) (Fin 0))
        (seq 0 batch_size) c).

(** The outputs of [batch_size] rows and [s] style entries. *)
Definition outputs_shaped (s batch_size : nat)
  (out : ftensor2 * ftensor1) : Prop :=
  List.length (fst out) = batch_size
  /\ Forall (fun row => List.length row = s) (fst out)
  /\ List.length (snd out) = batch_size.

(** On every row, what the flows other than the one of the row's label
    return is finite. *)
Definition unselected_finite (outs : list (ftensor2 * ftensor1))
  (c : list Z) : Prop :=
  forall b l k out,
    nth_error c b = Some l ->
    nth_error outs k = Some out ->
    Z.of_nat k <> l ->
    forallb is_finite (nth b (fst out) []) = true
    /\ is_finite (nth b (snd out) (Fin 0)) = true.

(** ** Configuration, modules and object state *)

(** The arguments of [SSA.__init__] that the module keeps or hands to the
    sub-modules it builds. *)
Record Config : Type := {
  input_dim : nat;
  c_dim : nat;
  s_dim : nat;
  nclass : nat;
  n_flow_layers : nat;
  optimizer : string;
  embedding_dim : nat;
  hidden_dim : nat;
  bound : nat;
  count_bins : nat;
  order : string;
  lr : R;
  beta : R;
  gamma : R;
  sigma : R;
  vae_slope : R;
  use_warm_start : bool;
  spline_pth : option string;
  decoder_dist : string;
  correlation : string;
  encoder_n_layers : nat;
  decoder_n_layers : nat;
  hz_to_z : bool
}.

(** The components the module imports: the encoder/decoder network, the
    normalizing flow, the functional losses, the metrics and the checkpoint
    reader. They are the parameters of the development. *)
Class Backend : Type := {
  (** the serialized parameter set of a flow *)
  state_dict : Type;
  (** [NormalizingFlow(...)]: the parameters of the [i]-th flow built *)
  NormalizingFlow_init : Config -> nat -> state_dict;
  (** [NormalizingFlow.forward]: transformed value and log|det J| per row *)
  NormalizingFlow_forward : state_dict -> tensor2 -> tensor2 * tensor1;
  (** same keys and shapes, as the strict [load_state_dict] requires *)
  state_dict_matches : state_dict -> state_dict -> bool;
  (** [torch.load(path, map_location=cpu)]; [None] when it raises *)
  torch_load : string -> option state_dict;
  (** [BetaVAE_MLP(...)] and its forward map to
      [(x_recon, mus, logvars, zs)]: one evaluation of the network, the
      draw of the latent sample included; the properties below are about one
      evaluation and do not compare two *)
  BetaVAE_MLP : Config -> tensor2 -> tensor2 * tensor2 * tensor2 * tensor2;
  (** [nn.Embedding(nclass, embedding_dim)] applied to the labels *)
  nn_Embedding : Config -> list Z -> tensor2;
  (** [F.binary_cross_entropy_with_logits(input, target, size_average=False)] *)
  F_binary_cross_entropy_with_logits : tensor2 -> tensor2 -> R;
  (** [F.mse_loss(input, target, size_average=False)] *)
  F_mse_loss : tensor2 -> tensor2 -> R;
  compute_r2 : tensor2 -> tensor2 -> R;
  compute_mcc : tensor2 -> tensor2 -> string -> R
}.

Record NormalizingFlow `{Backend} : Type := { flow_params : state_dict }.

(** The running-best attributes of the module. *)
Record RunningBest : Type := {
  best_r2 : R;
  best_mcc : R;
  best_sum : R;
  best_sum_mcc : R;
  best_sum_r2 : R;
  r2_at_best_mcc : R;
  mcc_at_best_r2 : R
}.

Record SSA `{Backend} : Type := {
  cfg : Config;
  net : tensor2 -> tensor2 * tensor2 * tensor2 * tensor2;
  (** only read when [embedding_dim > 0] *)
  embeddings : list Z -> tensor2;
  spline_list : list NormalizingFlow;
  best : RunningBest;
  (** [self.val_r2], absent until the first validation step *)
  val_r2 : option R
}.

Record Batch : Type := {
  batch_x : tensor2;
  batch_c : list Z;
  batch_y : option tensor2
}.

Inductive Optimizer : Type :=
| AdamW (lr : R) (betas : R * R) (weight_decay : R)
| RMSprop (lr : R).

(** ** The monad of the step methods

    A method runs on the module object and on the logging sink of
    [self.log]; it returns a value or raises, and the object and the sink it
    leaves behind are kept either way. *)

Section Methods.
Context `{Backend}.

Record State : Type := { self : SSA; sink : list (string * R) }.

Definition M (A : Type) : Type := State -> result A * State.

Definition ret {A : Type} (a : A) : M A := fun st => (Ok a, st).

Definition bind {A B : Type} (m : M A) (k : A -> M B) : M B :=
  fun st =>
    match m st with
    | (Ok a, st') => k a st'
    | (Raise e, st') => (Raise e, st')
    end.

Definition lift {A : Type} (r : result A) : M A := fun st => (r, st).

Definition getattr {A : Type} (f : SSA -> A) : M A :=
  fun st => (Ok (f (self st)), st).

Definition setattr (upd : SSA -> SSA) : M unit :=
  fun st => (Ok tt, {| self := upd (self st); sink := sink st |}).

(** [self.log(name, value)] appends to the sink. *)
Definition log (name : string) (value : R) : M unit :=
  fun st => (Ok tt, {| self := self st; sink := sink st ++ [(name, value)] |}).

Definition when (b : bool) (m : M unit) : M unit := if b then m else ret tt.

Notation "x <- m ;; k" := (bind m (fun x => k))
  (at level 61, m at next level, right associativity).
Notation "m ;;; k" := (bind m (fun _ => k))
  (at level 61, right associativity).

(** Assignments to the running-best attributes. *)
Definition with_best (f : RunningBest -> RunningBest) (s : SSA) : SSA :=
  {| cfg := cfg s; net := net s; embeddings := embeddings s;
     spline_list := spline_list s; best := f (best s); val_r2 := val_r2 s |}.

Definition set_best_r2 (v : R) (b : RunningBest) : RunningBest :=
  {| best_r2 := v; best_mcc := best_mcc b; best_sum := best_sum b;
     best_sum_mcc := best_sum_mcc b; best_sum_r2 := best_sum_r2 b;
     r2_at_best_mcc := r2_at_best_mcc b; mcc_at_best_r2 := mcc_at_best_r2 b |}.

Definition set_mcc_at_best_r2 (v : R) (b : RunningBest) : RunningBest :=
  {| best_r2 := best_r2 b; best_mcc := best_mcc b; best_sum := best_sum b;
     best_sum_mcc := best_sum_mcc b; best_sum_r2 := best_sum_r2 b;
     r2_at_best_mcc := r2_at_best_mcc b; mcc_at_best_r2 := v |}.

Definition set_best_mcc (v : R) (b : RunningBest) : RunningBest :=
  {| best_r2 := best_r2 b; best_mcc := v; best_sum := best_sum b;
     best_sum_mcc := best_sum_mcc b; best_sum_r2 := best_sum_r2 b;
     r2_at_best_mcc := r2_at_best_mcc b; mcc_at_best_r2 := mcc_at_best_r2 b |}.

Definition set_r2_at_best_mcc (v : R) (b : RunningBest) : RunningBest :=
  {| best_r2 := best_r2 b; best_mcc := best_mcc b; best_sum := best_sum b;
     best_sum_mcc := best_sum_mcc b; best_sum_r2 := best_sum_r2 b;
     r2_at_best_mcc := v; mcc_at_best_r2 := mcc_at_best_r2 b |}.

Definition set_best_sum (v : R) (b : RunningBest) : RunningBest :=
  {| best_r2 := best_r2 b; best_mcc := best_mcc b; best_sum := v;
     best_sum_mcc := best_sum_mcc b; best_sum_r2 := best_sum_r2 b;
     r2_at_best_mcc := r2_at_best_mcc b; mcc_at_best_r2 := mcc_at_best_r2 b |}.

Definition set_best_sum_mcc (v : R) (b : RunningBest) : RunningBest :=
  {| best_r2 := best_r2 b; best_mcc := best_mcc b; best_sum := best_sum b;
     best_sum_mcc := v; best_sum_r2 := best_sum_r2 b;
     r2_at_best_mcc := r2_at_best_mcc b; mcc_at_best_r2 := mcc_at_best_r2 b |}.

Definition set_best_sum_r2 (v : R) (b : RunningBest) : RunningBest :=
  {| best_r2 := best_r2 b; best_mcc := best_mcc b; best_sum := best_sum b;
     best_sum_mcc := best_sum_mcc b; best_sum_r2 := v;
     r2_at_best_mcc := r2_at_best_mcc b; mcc_at_best_r2 := mcc_at_best_r2 b |}.

Definition set_val_r2 (v : R) (s : SSA) : SSA :=
  {| cfg := cfg s; net := net s; embeddings := embeddings s;
     spline_list := spline_list s; best := best s; val_r2 := Some v |}.

(** [a >= b] on scalars. *)
Definition geb (a b : R) : bool := if Rge_dec a b then true else false.

(** ** [SSA.__init__] *)

(** [spline.load_state_dict(sd)]: all or nothing. *)
Definition load_state_dict (spline : NormalizingFlow) (sd : state_dict)
  : result NormalizingFlow :=
  if state_dict_matches (flow_params spline) sd
  then Ok {| flow_params := sd |}
  else Raise TorchError.

Definition torch_load_path (pth : option string) : result state_dict :=
  match pth with
  | Some p =>
      match torch_load p with
      | Some sd => Ok sd
      | None => Raise TorchError
      end
  | None => Raise TorchError
  end.

(** The body of the loop [for i in range(self.nclass)]. *)
Definition init_spline (args : Config) (i : nat) : result NormalizingFlow :=
  let spline := {| flow_params := NormalizingFlow_init args i |} in
  if use_warm_start args
  then rbind (torch_load_path (spline_pth args))
             (fun sd => load_state_dict spline sd)
  else Ok spline.

Definition init_best : RunningBest :=
  {| best_r2 := 0; best_mcc := 0; best_sum := 0; best_sum_mcc := 0;
     best_sum_r2 := 0; r2_at_best_mcc := 0; mcc_at_best_r2 := 0 |}.

Definition SSA_init (args : Config) : result SSA :=
  rbind (rmapM (init_spline args) (seq 0 (nclass args)))
        (fun splines =>
           Ok {| cfg := args;
                 net := BetaVAE_MLP args;
                 embeddings := nn_Embedding args;
                 spline_list := splines;
                 best := init_best;
                 val_r2 := None |}).

(** ** [SSA.reconstruction_loss] *)

Definition reconstruction_loss (x x_recon : tensor2) (distribution : string)
  : result R :=
  let batch_size := List.length x in
  if Nat.eqb batch_size 0 then Raise AssertionError
  else if String.eqb distribution "bernoulli"
  then Ok (F_binary_cross_entropy_with_logits x_recon x / INR batch_size)
  else if String.eqb distribution "gaussian"
  then Ok (F_mse_loss x_recon x / INR batch_size)
  else if String.eqb distribution "sigmoid_gaussian"
  then let x_recon := F_sigmoid x_recon in
       Ok (F_mse_loss x_recon x / INR batch_size)
  else Raise UnboundLocalError.

(** ** The ELBO terms of a step *)

(** Content KLD (lines 160-164 and 209-213). *)
Definition content_kld (c_dim : nat) (mus logvars zs log_qz : tensor2) : R :=
  let p_dist := D_Normal (zeros_like (cols_to c_dim mus))
                         (ones_like (cols_to c_dim logvars)) in
  let log_pz_content := sum_last (log_prob p_dist (cols_to c_dim zs)) in
  let log_qz_content := sum_last (cols_to c_dim log_qz) in
  let kld_content := map2 Rminus log_qz_content log_pz_content in
  mean1 kld_content.

(** The nonstationary branch (lines 169-182 and 219-232): every flow of the
    bank is applied to the residuals of the whole batch, the outputs are
    stacked and the one-hot mask of the labels selects one per row. *)
Definition flow_bank_outputs (splines : list NormalizingFlow) (n : nat)
  (residuals : tensor2) : result (list (tensor2 * tensor1)) :=
  rmapM (fun c =>
           match nth_error splines c with
           | Some spline =>
               Ok (NormalizingFlow_forward (flow_params spline) residuals)
           | None => Raise IndexError
           end)
        (seq 0 n).

Definition masked_flow_select (splines : list NormalizingFlow) (n s batch_size : nat)
  (c : list Z) (residuals : tensor2) : result (tensor2 * tensor1) :=
  rbind (F_one_hot c n) (fun one_hot =>
  rbind (flow_bank_outputs splines n residuals) (fun outs =>
  rbind (torch_stack1 same_shape2 [] (map fst outs)) (fun es =>
  rbind (torch_stack1 same_shape1 0 (map snd outs)) (fun logabsdet =>
  let mask := one_hot in
  rbind (masked_sum3 es mask) (fun es =>
  rbind (masked_sum2 logabsdet mask) (fun logabsdet =>
  rbind (reshape batch_size s es) (fun es =>
  Ok (es, logabsdet)))))))).

(** Style KLD (lines 166-186 and 216-236). *)
Definition style_kld (splines : list NormalizingFlow) (n cd s batch_size : nat)
  (c : list Z) (zs log_qz : tensor2) : result R :=
  let log_qz_style := cols_from cd log_qz in
  let residuals := cols_from cd zs in
  let sum_log_abs_det_jacobians := 0 in
  rbind (masked_flow_select splines n s batch_size c residuals)
        (fun '(es, logabsdet) =>
  let sum_log_abs_det_jacobians :=
    map (fun v => sum_log_abs_det_jacobians + v) logabsdet in
  let log_pz_style :=
    map2 Rplus (base_dist_log_prob s es) sum_log_abs_det_jacobians in
  let kld_style := map2 Rminus (sum_last log_qz_style) log_pz_style in
  Ok (mean1 kld_style)).

(** [x = torch.cat([x, self.embeddings(c.squeeze().long())], dim=1)] when the
    embedding is enabled. The lookup is taken to return: the error of
    [nn.Embedding] on a label outside its table and the squeeze of a one-row
    batch are not modelled, so a property that needs them assumes the
    embedding disabled. *)
Definition embed_input (s : SSA) (x : tensor2) (c : list Z) : result tensor2 :=
  if Nat.ltb 0 (embedding_dim (cfg s))
  then torch_cat1 x (embeddings s c)
  else Ok x.

(** ** [SSA.training_step] *)

Definition training_step (batch : Batch) (batch_idx : nat) : M R :=
  s <- getattr (fun s => s) ;;
  let x := batch_x batch in
  let c := batch_c batch in
  let batch_size := List.length x in
  x <- lift (embed_input s x c) ;;
  let '(x_recon, mus, logvars, zs) := net s x in
  recon_loss <- lift (reconstruction_loss x x_recon (decoder_dist (cfg s))) ;;
  let q_dist := D_Normal mus (exp_half logvars) in
  let log_qz := log_prob q_dist zs in
  let kld_content := content_kld (c_dim (cfg s)) mus logvars zs log_qz in
  kld_style <- lift (style_kld (spline_list s) (nclass (cfg s)) (c_dim (cfg s))
                               (s_dim (cfg s)) batch_size c zs log_qz) ;;
  let loss := recon_loss + beta (cfg s) * kld_content
              + gamma (cfg s) * kld_style in
  log "train_elbo_loss" loss ;;;
  log "train_recon_loss" recon_loss ;;;
  log "train_kld_content" kld_content ;;;
  log "train_kld_style" kld_style ;;;
  ret loss.

(** ** [SSA.validation_step] *)

(** [t.T] of a rank-2 tensor. *)
Definition transpose (t : tensor2) : tensor2 :=
  map (fun j => map (fun row => nth j row 0) t)
      (seq 0 (List.length (hd [] t))).

Definition batch_item_y (batch : Batch) : result tensor2 :=
  match batch_y batch with
  | Some y => Ok y
  | None => Raise KeyError
  end.

Definition validation_step (batch : Batch) (batch_idx : nat) : M R :=
  s <- getattr (fun s => s) ;;
  let x := batch_x batch in
  let c := batch_c batch in
  y <- lift (batch_item_y batch) ;;
  let batch_size := List.length x in
  x <- lift (embed_input s x c) ;;
  let '(x_recon, mus, logvars, zs) := net s x in
  recon_loss <- lift (reconstruction_loss x x_recon (decoder_dist (cfg s))) ;;
  let q_dist := D_Normal mus (exp_half logvars) in
  let log_qz := log_prob q_dist zs in
  let kld_content := content_kld (c_dim (cfg s)) mus logvars zs log_qz in
  kld_style <- lift (style_kld (spline_list s) (nclass (cfg s)) (c_dim (cfg s))
                               (s_dim (cfg s)) batch_size c zs log_qz) ;;
  let loss := recon_loss + beta (cfg s) * kld_content
              + gamma (cfg s) * kld_style in
  let r2 :=
    if negb (hz_to_z (cfg s))
    then compute_r2 (cols_to (c_dim (cfg s)) mus) (cols_to (c_dim (cfg s)) y)
    else compute_r2 (cols_to (c_dim (cfg s)) y) (cols_to (c_dim (cfg s)) mus) in
  let zt_recon := transpose (cols_from (c_dim (cfg s)) mus) in
  let zt_true := transpose (cols_from (c_dim (cfg s)) y) in
  let mcc := compute_mcc zt_recon zt_true (correlation (cfg s)) in
  log "val_mcc" mcc ;;;
  log "val_r2" r2 ;;;
  log "val_elbo_loss" loss ;;;
  log "val_recon_loss" recon_loss ;;;
  log "val_kld_content" kld_content ;;;
  log "val_kld_style" kld_style ;;;
  cur <- getattr (fun s => best_r2 (best s)) ;;
  when (geb r2 cur)
       (setattr (with_best (set_best_r2 r2)) ;;;
        setattr (with_best (set_mcc_at_best_r2 mcc))) ;;;
  v <- getattr (fun s => best_r2 (best s)) ;; log "best_r2" v ;;;
  v <- getattr (fun s => mcc_at_best_r2 (best s)) ;; log "mcc_at_best_r2" v ;;;
  cur <- getattr (fun s => best_mcc (best s)) ;;
  when (geb mcc cur)
       (setattr (with_best (set_best_mcc mcc)) ;;;
        setattr (with_best (set_r2_at_best_mcc r2))) ;;;
  v <- getattr (fun s => best_mcc (best s)) ;; log "best_mcc" v ;;;
  v <- getattr (fun s => r2_at_best_mcc (best s)) ;; log "r2_at_best_mcc" v ;;;
  cur <- getattr (fun s => best_sum (best s)) ;;
  when (geb (mcc + r2) cur)
       (setattr (with_best (set_best_sum (mcc + r2))) ;;;
        setattr (with_best (set_best_sum_mcc mcc)) ;;;
        setattr (with_best (set_best_sum_r2 r2))) ;;;
  v <- getattr (fun s => best_sum_mcc (best s)) ;; log "best_sum_mcc" v ;;;
  v <- getattr (fun s => best_sum_r2 (best s)) ;; log "best_sum_r2" v ;;;
  setattr (set_val_r2 r2) ;;;
  ret loss.

(** ** [SSA.configure_optimizers] *)

Definition configure_optimizers (s : SSA)
  : result (list Optimizer * list unit) :=
  if String.eqb (lower (optimizer (cfg s))) "adam"
  then let opt_v := AdamW (lr (cfg s)) (0.9, 0.999) 0.0001 in
       Ok ([opt_v], [])
  else if String.eqb (lower (optimizer (cfg s))) "rmsprop"
  then let opt_v := RMSprop (lr (cfg s)) in
       Ok ([opt_v], [])
  else Raise NotImplementedError.

(** ** Reference definitions for the properties *)

(** The three loss terms a step computes on a batch: the block of lines
    149-186, which lines 196-236 repeat. *)
Definition elbo_terms (s : SSA) (batch : Batch) : result (R * R * R) :=
  let x := batch_x batch in
  let c := batch_c batch in
  let batch_size := List.length x in
  rbind (embed_input s x c) (fun x =>
  let '(x_recon, mus, logvars, zs) := net s x in
  rbind (reconstruction_loss x x_recon (decoder_dist (cfg s))) (fun recon_loss =>
  let log_qz := log_prob (D_Normal mus (exp_half logvars)) zs in
  let kld_content := content_kld (c_dim (cfg s)) mus logvars zs log_qz in
  rbind (style_kld (spline_list s) (nclass (cfg s)) (c_dim (cfg s))
                   (s_dim (cfg s)) batch_size c zs log_qz) (fun kld_style =>
  Ok (recon_loss, kld_content, kld_style)))).

(** The encoder means of a batch, as both steps obtain them. *)
Definition encoded_mus (s : SSA) (batch : Batch) : result tensor2 :=
  rbind (embed_input s (batch_x batch) (batch_c batch)) (fun x =>
  let '(_, mus, _, _) := net s x in Ok mus).

(** The metrics of a validation step (lines 242-249). *)
Definition r2_metric (s : SSA) (mus y : tensor2) : R :=
  if negb (hz_to_z (cfg s))
  then compute_r2 (cols_to (c_dim (cfg s)) mus) (cols_to (c_dim (cfg s)) y)
  else compute_r2 (cols_to (c_dim (cfg s)) y) (cols_to (c_dim (cfg s)) mus).

Definition mcc_metric (s : SSA) (mus y : tensor2) : R :=
  compute_mcc (transpose (cols_from (c_dim (cfg s)) mus))
              (transpose (cols_from (c_dim (cfg s)) y)) (correlation (cfg s)).

(** The effect of the three guarded assignments of lines 258-273 on the
    running-best attributes, for the metrics [r2] and [mcc] of a step. *)
Definition update_best (r2 mcc : R) (b : RunningBest) : RunningBest :=
  let b := if geb r2 (best_r2 b)
           then set_mcc_at_best_r2 mcc (set_best_r2 r2 b) else b in
  let b := if geb mcc (best_mcc b)
           then set_r2_at_best_mcc r2 (set_best_mcc mcc b) else b in
  if geb (mcc + r2) (best_sum b)
  then set_best_sum_r2 r2 (set_best_sum_mcc mcc (set_best_sum (mcc + r2) b))
  else b.

(** The three running maxima of [b'] are not below those of [b]. *)
Definition maxima_le (b b' : RunningBest) : Prop :=
  best_r2 b <= best_r2 b' /\ best_mcc b <= best_mcc b'
  /\ best_sum b <= best_sum b'.

(** What a validation step appends to the sink. *)
Definition validation_log (recon kc ks loss r2 mcc : R) (b' : RunningBest)
  : list (string * R) :=
  [("val_mcc", mcc); ("val_r2", r2); ("val_elbo_loss", loss);
   ("val_recon_loss", recon); ("val_kld_content", kc); ("val_kld_style", ks);
   ("best_r2", best_r2 b'); ("mcc_at_best_r2", mcc_at_best_r2 b');
   ("best_mcc", best_mcc b'); ("r2_at_best_mcc", r2_at_best_mcc b');
   ("best_sum_mcc", best_sum_mcc b'); ("best_sum_r2", best_sum_r2 b')]%string.

(** Per-row gather, the reference for the masked selection: row [b] with
    label [k] takes row [b] of the outputs of flow [k]. *)
Definition flow_output (splines : list NormalizingFlow) (k : Z)
  (residuals : tensor2) : tensor2 * tensor1 :=
  match nth_error splines (Z.to_nat k) with
  | Some spline => NormalizingFlow_forward (flow_params spline) residuals
  | None => ([], [])
  end.

Definition gather_reference (splines : list NormalizingFlow) (c : list Z)
  (residuals : tensor2) : tensor2 * tensor1 :=
  (map2 (fun b k => nth b (fst (flow_output splines k residuals)) [])
        (seq 0 (List.length residuals)) c,
   map2 (fun b k => nth b (snd (flow_output splines k residuals)) 0)
        (seq 0 (List.length residuals)) c).

(** A flow maps [batch] rows of residuals to [batch] rows of [s] entries and
    [batch] log-determinants. *)
Definition flow_shaped (s : nat) (residuals : tensor2)
  (spline : NormalizingFlow) : Prop :=
  let out := NormalizingFlow_forward (flow_params spline) residuals in
  List.length (fst out) = List.length residuals
  /\ Forall (fun row => List.length row = s) (fst out)
  /\ List.length (snd out) = List.length residuals.

(** Successive validation steps on a list of batches. *)
Fixpoint validation_epoch (batches : list Batch) (batch_idx : nat) : M unit :=
  match batches with
  | [] => ret tt
  | batch :: rest =>
      validation_step batch batch_idx ;;;
      validation_epoch rest (S batch_idx)
  end.

(** A step on a well-formed batch: at least one row, one in-range label per
    row, a supported decoder family, one flow per class, and an encoder and
    flows that keep the batch rows and the style width. *)
Definition step_well_formed (s : SSA) (batch : Batch) : Prop :=
  batch_x batch <> []
  /\ List.length (batch_c batch) = List.length (batch_x batch)
  /\ forallb (label_in_range (nclass (cfg s))) (batch_c batch) = true
  /\ In (decoder_dist (cfg s)) ["bernoulli"; "gaussian"; "sigmoid_gaussian"]%string
  /\ List.length (spline_list s) = nclass (cfg s)
  /\ exists x,
       embed_input s (batch_x batch) (batch_c batch) = Ok x
       /\ let '(_, _, _, zs) := net s x in
          List.length zs = List.length (batch_x batch)
          /\ Forall (flow_shaped (s_dim (cfg s)) (cols_from (c_dim (cfg s)) zs))
                    (spline_list s).

(** ** [SSA.reparameterize] *)

(** [eps] is the draw of [torch.randn_like(logvar)]. *)
Definition reparameterize (eps : tensor2) (mean logvar : tensor2)
  (random_sampling : bool) : tensor2 :=
  if random_sampling
  then let std := map (map (fun v => exp (0.5 * v))) logvar in
       let z := map2 (map2 Rplus) mean (map2 (map2 Rmult) eps std) in
       z
  else mean.

(** Two rank-2 tensors of the same shape. *)
Definition shape2 (t : tensor2) : list nat := map (@List.length R) t.

(** ** Reference definitions for the running bests over an epoch *)

(** The metrics [(r2, mcc)] a validation step computes on a batch. *)
Definition step_metrics (s : SSA) (batch : Batch) : option (R * R) :=
  match batch_y batch, encoded_mus s batch with
  | Some y, Ok mus => Some (r2_metric s mus y, mcc_metric s mus y)
  | _, _ => None
  end.

(** The guarded assignments applied to a list of observed [(r2, mcc)]. *)
Definition observe (b : RunningBest) (p : R * R) : RunningBest :=
  update_best (fst p) (snd p) b.

(** [best_sum] is the sum of the two values recorded with it. *)
Definition sum_split (b : RunningBest) : Prop :=
  best_sum b = best_sum_mcc b + best_sum_r2 b.

(** The order the records keep among themselves. *)
Definition records_ordered (b : RunningBest) : Prop :=
  0 <= best_r2 b /\ 0 <= best_mcc b /\ 0 <= best_sum b
  /\ mcc_at_best_r2 b <= best_mcc b
  /\ r2_at_best_mcc b <= best_r2 b
  /\ best_sum_mcc b <= best_mcc b
  /\ best_sum_r2 b <= best_r2 b
  /\ best_r2 b + mcc_at_best_r2 b <= best_sum b
  /\ best_mcc b + r2_at_best_mcc b <= best_sum b.

End Methods.

(** ** A small instance

    A backend with scaling flows, an encoder that copies its input and
    metrics that read one entry of the ground truth, and a module built on
    it; the examples below run the methods on them. *)

Module Toy.

Definition backend : Backend := {|
  state_dict := R;
  NormalizingFlow_init := fun _ i => INR (S i);
  NormalizingFlow_forward := fun p r =>
    (map (map (fun v => p * v)) r,
     map (fun row => INR (List.length row) * ln (Rabs p)) r);
  state_dict_matches := fun _ _ => true;
  torch_load := fun _ => Some 2;
  BetaVAE_MLP := fun _ x => (x, x, zeros_like x, x);
  nn_Embedding := fun _ c => map (fun _ => []) c;
  F_binary_cross_entropy_with_logits := fun input target =>
    sum1 (map sum1 (map2 (map2 (fun l t => (1 - t) * l + ln (1 + exp (- l))))
                         input target));
  F_mse_loss := fun input target =>
    sum1 (map sum1 (map2 (map2 (fun a b => (a - b) ^ 2)) input target));
  compute_r2 := fun a _ => hd 0 (hd [] a);
  compute_mcc := fun _ zt_true _ => hd 0 (hd [] zt_true)
|}.

Definition args (opt : string) (warm : bool) : Config := {|
  input_dim := 2; c_dim := 1; s_dim := 1; nclass := 2; n_flow_layers := 1;
  optimizer := opt; embedding_dim := 0; hidden_dim := 128; bound := 5;
  count_bins := 8; order := "linear"; lr := 0.0001; beta := 0.0025;
  gamma := 0.001; sigma := 0.000001; vae_slope := 0.2;
  use_warm_start := warm; spline_pth := Some "spline.pth"%string;
  decoder_dist := "gaussian"; correlation := "Pearson";
  encoder_n_layers := 3; decoder_n_layers := 1; hz_to_z := true
|}.

(** The module [SSA(...)] builds from [args opt warm]. *)
Definition module (opt : string) (warm : bool) : @SSA backend := {|
  cfg := args opt warm;
  net := @BetaVAE_MLP backend (args opt warm);
  embeddings := @nn_Embedding backend (args opt warm);
  spline_list :=
    if warm
    then [ @Build_NormalizingFlow backend 2; @Build_NormalizingFlow backend 2 ]
    else [ @Build_NormalizingFlow backend (INR 1);
           @Build_NormalizingFlow backend (INR 2) ];
  best := init_best;
  val_r2 := None
|}.

(** The same module, cold-started and run by [adam], with running bests [b]
    and [self.val_r2] at [v]. *)
Definition module_at (b : RunningBest) (v : option R) : @SSA backend := {|
  cfg := args "adam" false;
  net := @BetaVAE_MLP backend (args "adam" false);
  embeddings := @nn_Embedding backend (args "adam" false);
  spline_list := [ @Build_NormalizingFlow backend (INR 1);
                   @Build_NormalizingFlow backend (INR 2) ];
  best := b;
  val_r2 := v
|}.

Definition state_at (b : RunningBest) (v : option R) : @State backend :=
  {| self := module_at b v; sink := [] |}.

Definition start : @State backend := state_at init_best None.

(** The running bests after a first validation step that saw [r2 = 0.5] and
    [mcc = 0.9]. *)
Definition seen : RunningBest :=
  {| best_r2 := 0.5; best_mcc := 0.9; best_sum := 0.9 + 0.5;
     best_sum_mcc := 0.9; best_sum_r2 := 0.5; r2_at_best_mcc := 0.5;
     mcc_at_best_r2 := 0.9 |}.

(** A batch of one row with label 1 whose ground truth makes the toy
    metrics return [r2] and [mcc]. *)
Definition batch_of (r2 mcc : R) : Batch :=
  {| batch_x := [[0; 3]]; batch_c := [1%Z]; batch_y := Some [[r2; mcc]] |}.

(** A batch of three rows with labels 0, 1, 0. *)
Definition batch3 : Batch :=
  {| batch_x := [[0; 1]; [0; 2]; [0; 3]]; batch_c := [0%Z; 1%Z; 0%Z];
     batch_y := Some [[1; 1]; [1; 1]; [1; 1]] |}.

Definition empty_batch : Batch :=
  {| batch_x := []; batch_c := []; batch_y := Some [] |}.

End Toy.

(** * Properties *)

Section Properties.
Context `{Backend}.

(** ** The steps in terms of their loss terms *)

Lemma training_step_eq (batch : Batch) (batch_idx : nat) (st : State) :
  training_step batch batch_idx st =
  match elbo_terms (self st) batch with
  | Ok (recon, kc, ks) =>
      let loss := recon + beta (cfg (self st)) * kc
                  + gamma (cfg (self st)) * ks in
      (Ok loss,
       {| self := self st;
          sink := sink st ++ [("train_elbo_loss", loss);
                              ("train_recon_loss", recon);
                              ("train_kld_content", kc);
                              ("train_kld_style", ks)]%string |})
  | Raise e => (Raise e, st)
  end.
Proof.
  unfold training_step, elbo_terms, bind, getattr, lift, log, ret.
  destruct (embed_input (self st) (batch_x batch) (batch_c batch)) as [x|e];
    cbn; [|reflexivity].
  destruct (net (self st) x) as [[[x_recon mus] logvars] zs].
  destruct (reconstruction_loss x x_recon _) as [recon|e]; cbn; [|reflexivity].
  destruct (style_kld _ _ _ _ _ _ _ _) as [ks|e]; cbn; [|reflexivity].
  rewrite <- !app_assoc. reflexivity.
Qed.

Lemma validation_step_eq (batch : Batch) (batch_idx : nat) (st : State) :
  validation_step batch batch_idx st =
  match batch_y batch with
  | None => (Raise KeyError, st)
  | Some y =>
      match elbo_terms (self st) batch, encoded_mus (self st) batch with
      | Ok (recon, kc, ks), Ok mus =>
          let loss := recon + beta (cfg (self st)) * kc
                      + gamma (cfg (self st)) * ks in
          let r2 := r2_metric (self st) mus y in
          let mcc := mcc_metric (self st) mus y in
          let b' := update_best r2 mcc (best (self st)) in
          (Ok loss,
           {| self := set_val_r2 r2 (with_best (fun _ => b') (self st));
              sink := sink st ++ validation_log recon kc ks loss r2 mcc b' |})
      | Raise e, _ => (Raise e, st)
      | Ok _, Raise e => (Raise e, st)
      end
  end.
Proof.
  unfold validation_step, elbo_terms, encoded_mus, batch_item_y, bind,
    getattr, lift.
  destruct (batch_y batch) as [y|]; cbn; [|reflexivity].
  destruct (embed_input (self st) (batch_x batch) (batch_c batch)) as [x|e];
    cbn; [|reflexivity].
  destruct (net (self st) x) as [[[x_recon mus] logvars] zs].
  destruct (reconstruction_loss x x_recon _) as [recon|e]; cbn; [|reflexivity].
  destruct (style_kld _ _ _ _ _ _ _ _) as [ks|e]; cbn; [|reflexivity].
  fold (r2_metric (self st) mus y). fold (mcc_metric (self st) mus y).
  generalize (r2_metric (self st) mus y) (mcc_metric (self st) mus y).
  intros r2 mcc.
  unfold update_best, validation_log, when, log, setattr, ret, with_best,
    set_val_r2.
  destruct st as [[cf nt em sp b vr] sk]; cbn.
  destruct (geb r2 (best_r2 b)); cbn;
    destruct (geb mcc (best_mcc b)); cbn;
    destruct (geb (mcc + r2) (best_sum b)); cbn;
    rewrite <- !app_assoc; reflexivity.
Qed.

(** ** Lists and tensors *)

Lemma rbind_ok {A B : Type} (r : result A) (k : A -> result B) (b : B) :
  rbind r k = Ok b -> exists a, r = Ok a /\ k a = Ok b.
Proof. destruct r as [a|e]; cbn; [eauto | discriminate]. Qed.

Lemma rmapM_ok {A B : Type} (f : A -> result B) (l : list A) (bs : list B) :
  rmapM f l = Ok bs -> Forall2 (fun a b => f a = Ok b) l bs.
Proof.
  revert bs. induction l as [|a l IH]; cbn; intros bs Hbs.
  - inversion Hbs. constructor.
  - apply rbind_ok in Hbs. destruct Hbs as (b & Hb & Hbs).
    apply rbind_ok in Hbs. destruct Hbs as (bs' & Hbs' & Heq).
    inversion Heq; subst. constructor; auto.
Qed.

Lemma map2_length {A B C : Type} (f : A -> B -> C) (l1 : list A) (l2 : list B) :
  List.length l1 = List.length l2 ->
  List.length (map2 f l1 l2) = List.length l1.
Proof.
  revert l2. induction l1 as [|a l1 IH]; intros [|b l2]; cbn; intros Hl;
    try discriminate; auto.
Qed.

Lemma map2_map {A A' B B' C : Type} (f : A' -> B' -> C) (g : A -> A')
  (h : B -> B') (l1 : list A) (l2 : list B) :
  map2 f (map g l1) (map h l2) = map2 (fun a b => f (g a) (h b)) l1 l2.
Proof.
  revert l2. induction l1 as [|a l1 IH]; intros [|b l2]; cbn; auto.
  now rewrite IH.
Qed.

Lemma map2_ext_in {A B C : Type} (f g : A -> B -> C) (l1 : list A)
  (l2 : list B) :
  (forall a b, In (a, b) (combine l1 l2) -> f a b = g a b) ->
  map2 f l1 l2 = map2 g l1 l2.
Proof.
  revert l2. induction l1 as [|a l1 IH]; intros [|b l2] Hfg; cbn; auto.
  rewrite Hfg by (left; reflexivity).
  rewrite IH; [reflexivity|]. intros a' b' Hin. apply Hfg. now right.
Qed.

Lemma map2_same {A C : Type} (f : A -> A -> C) (l : list A) :
  map2 f l l = map (fun a => f a a) l.
Proof. induction l as [|a l IH]; cbn; [|rewrite IH]; reflexivity. Qed.

Lemma map3_firstn {A B C D : Type} (f : A -> B -> C -> D) (n : nat)
  (l1 : list A) (l2 : list B) (l3 : list C) :
  firstn n (map3 f l1 l2 l3) = map3 f (firstn n l1) (firstn n l2) (firstn n l3).
Proof.
  revert l1 l2 l3. induction n as [|n IH]; intros [|a l1] [|b l2] [|c l3];
    cbn; try reflexivity.
  now rewrite IH.
Qed.

Lemma cols_to_map3 (f : R -> R -> R -> R) (n : nat) (a b c : tensor2) :
  cols_to n (map3 (map3 f) a b c) =
  map3 (map3 f) (cols_to n a) (cols_to n b) (cols_to n c).
Proof.
  unfold cols_to. revert b c.
  induction a as [|ra a IH]; intros [|rb b] [|rc c]; cbn; auto.
  now rewrite IH, map3_firstn.
Qed.

Lemma sum1_zeros {A : Type} (l : list A) : sum1 (map (fun _ => 0) l) = 0.
Proof.
  unfold sum1. induction l as [|a l IH]; cbn; [|rewrite IH]; lra.
Qed.

Lemma mean1_zeros {A : Type} (l : list A) : mean1 (map (fun _ => 0) l) = 0.
Proof. unfold mean1. rewrite sum1_zeros. unfold Rdiv. apply Rmult_0_l. Qed.

Lemma map_const_repeat {A B : Type} (b : B) (l : list A) :
  map (fun _ => b) l = repeat b (List.length l).
Proof. induction l as [|a l IH]; cbn; [|rewrite IH]; reflexivity. Qed.

Lemma cols_to_exp_half (n : nat) (t : tensor2) :
  cols_to n (exp_half t) = exp_half (cols_to n t).
Proof.
  unfold cols_to, exp_half. rewrite !map_map. apply map_ext. intros row.
  apply firstn_map.
Qed.

Lemma exp_half_zeros (t : tensor2) :
  t = zeros_like t -> exp_half t = ones_like t.
Proof.
  intros Ht. replace (exp_half t) with (exp_half (zeros_like t))
    by (now rewrite <- Ht).
  unfold exp_half, zeros_like, ones_like. rewrite map_map.
  apply map_ext. intros row. rewrite map_map. apply map_ext. intros _.
  replace (0 / 2) with 0 by lra. apply exp_0.
Qed.

Lemma content_kld_zero (cd : nat) (mus logvars zs : tensor2) :
  cols_to cd mus = zeros_like (cols_to cd mus) ->
  cols_to cd logvars = zeros_like (cols_to cd logvars) ->
  content_kld cd mus logvars zs (log_prob (D_Normal mus (exp_half logvars)) zs)
  = 0.
Proof.
  intros Hmu Hlv. unfold content_kld, log_prob. cbn [loc scale].
  rewrite cols_to_map3, cols_to_exp_half, (exp_half_zeros _ Hlv), <- Hmu.
  rewrite map2_same.
  rewrite (map_ext (fun a => a - a) (fun _ => 0)) by (intros; lra).
  apply mean1_zeros.
Qed.

(** ** A one-hot mask selects one summand *)

Lemma sum1_cons (a : R) (l : tensor1) : sum1 (a :: l) = a + sum1 l.
Proof. reflexivity. Qed.

Lemma onehot_sum1 (l : Z) (row : tensor1) (start : nat) :
  let masked :=
    map2 (fun v m => v * IZR m) row
         (map (fun k => if (Z.of_nat k =? l)%Z then 1%Z else 0%Z)
              (seq start (List.length row))) in
  ((l < Z.of_nat start)%Z -> sum1 masked = 0)
  /\ ((Z.of_nat start <= l < Z.of_nat (start + List.length row))%Z ->
      sum1 masked = nth (Z.to_nat l - start) row 0).
Proof.
  revert start. induction row as [|v row IH]; intros start; cbn zeta.
  - split; [reflexivity|]. cbn. lia.
  - specialize (IH (S start)). cbn zeta in IH. destruct IH as [IHlow IHin].
    cbn [List.length seq map map2]. rewrite sum1_cons.
    destruct (Z.eqb_spec (Z.of_nat start) l) as [Heq|Hne]; split; intros Hl.
    + lia.
    + rewrite IHlow by lia.
      replace (Z.to_nat l - start)%nat with 0%nat by lia. cbn. lra.
    + rewrite IHlow by lia. lra.
    + rewrite IHin by lia.
      replace (Z.to_nat l - start)%nat with (S (Z.to_nat l - S start)) by lia.
      cbn. lra.
Qed.

Lemma vadd_zero_r (e : tensor1) :
  vadd e (repeat 0 (List.length e)) = e.
Proof.
  unfold vadd. induction e as [|v e IH]; cbn; [reflexivity|].
  rewrite IH. f_equal. lra.
Qed.

Lemma vadd_scaled_zero (e w : tensor1) :
  List.length e = List.length w ->
  vadd (map (fun v => v * IZR 0) e) w = w.
Proof.
  unfold vadd. revert w. induction e as [|v e IH]; intros [|x w] Hl;
    cbn in *; try discriminate; [reflexivity|].
  rewrite IH by lia. f_equal. lra.
Qed.

Lemma scaled_one (e : tensor1) : map (fun v => v * IZR 1) e = e.
Proof.
  rewrite (map_ext _ (fun v => v)) by (intros; cbn; lra). apply map_id.
Qed.

Lemma onehot_sum_axis0 (l : Z) (s : nat) (rows : tensor2) (start : nat) :
  Forall (fun e => List.length e = s) rows ->
  let masked :=
    map2 (fun e m => map (fun v => v * IZR m) e) rows
         (map (fun k => if (Z.of_nat k =? l)%Z then 1%Z else 0%Z)
              (seq start (List.length rows))) in
  ((l < Z.of_nat start)%Z -> fold_right vadd (repeat 0 s) masked = repeat 0 s)
  /\ ((Z.of_nat start <= l < Z.of_nat (start + List.length rows))%Z ->
      fold_right vadd (repeat 0 s) masked = nth (Z.to_nat l - start) rows []).
Proof.
  intros Hrows. revert start.
  induction Hrows as [|e rows He Hrows IH]; intros start; cbn zeta.
  - split; [reflexivity|]. cbn. lia.
  - specialize (IH (S start)). cbn zeta in IH. destruct IH as [IHlow IHin].
    cbn [List.length seq map map2 fold_right].
    destruct (Z.eqb_spec (Z.of_nat start) l) as [Heq|Hne]; split; intros Hl.
    + lia.
    + rewrite IHlow by lia. rewrite scaled_one, <- He, vadd_zero_r.
      replace (Z.to_nat l - start)%nat with 0%nat by lia. reflexivity.
    + rewrite IHlow by lia. apply vadd_scaled_zero.
      now rewrite repeat_length.
    + rewrite IHin by lia.
      replace (Z.to_nat l - start)%nat with (S (Z.to_nat l - S start)) by lia.
      cbn [nth]. apply vadd_scaled_zero.
      rewrite He. symmetry.
      assert (Hn : (Z.to_nat l - S start < List.length rows)%nat)
        by (unfold tensor1 in *; lia).
      revert Hn. generalize (Z.to_nat l - S start)%nat. clear -Hrows.
      induction Hrows as [|e' rows He' Hrows IH]; intros [|n] Hn; cbn in *;
        try lia; auto. apply IH. lia.
Qed.

Lemma sum_axis0_onehot (l : Z) (s : nat) (rows : tensor2) :
  Forall (fun e => List.length e = s) rows ->
  (0 <= l < Z.of_nat (List.length rows))%Z ->
  sum_axis0
    (map2 (fun e m => map (fun v => v * IZR m) e) rows
          (map (fun k => if (Z.of_nat k =? l)%Z then 1%Z else 0%Z)
               (seq 0 (List.length rows))))
  = nth (Z.to_nat l) rows [].
Proof.
  intros Hrows Hl. unfold sum_axis0.
  destruct (onehot_sum_axis0 l s rows 0 Hrows) as [_ Hin].
  cbn zeta in Hin. rewrite Nat.sub_0_r in Hin.
  replace (map (fun _ => 0) (hd [] _)) with (repeat 0 s).
  - apply Hin. cbn. lia.
  - destruct Hrows as [|e rows He Hrows]; [cbn in Hl; lia|].
    cbn. now rewrite map_const_repeat, length_map, He.
Qed.

Lemma sum1_onehot (l : Z) (row : tensor1) :
  (0 <= l < Z.of_nat (List.length row))%Z ->
  sum1 (map2 (fun v m => v * IZR m) row
             (map (fun k => if (Z.of_nat k =? l)%Z then 1%Z else 0%Z)
                  (seq 0 (List.length row))))
  = nth (Z.to_nat l) row 0.
Proof.
  intros Hl. destruct (onehot_sum1 l row 0) as [_ Hin].
  cbn zeta in Hin. rewrite Nat.sub_0_r in Hin. apply Hin. cbn. lia.
Qed.

(** ** Reshaping a tensor that already has the shape *)

Lemma concat_length_uniform (cols : nat) (t : tensor2) :
  Forall (fun r => List.length r = cols) t ->
  List.length (concat t) = (List.length t * cols)%nat.
Proof.
  induction 1 as [|e t He Ht IH]; cbn; [reflexivity|].
  rewrite length_app, IH, He. reflexivity.
Qed.

Lemma regroup_rows (cols : nat) (t : tensor2) :
  Forall (fun r => List.length r = cols) t ->
  map (fun i => firstn cols (skipn (i * cols) (concat t)))
      (seq 0 (List.length t)) = t.
Proof.
  induction 1 as [|e t He Ht IH]; cbn [List.length seq map concat];
    [reflexivity|].
  f_equal.
  - cbn. rewrite firstn_app, He, Nat.sub_diag. cbn.
    rewrite <- He, firstn_all. apply app_nil_r.
  - rewrite <- seq_shift, map_map. rewrite <- IH at 2.
    apply map_ext. intros i. f_equal.
    rewrite skipn_app, He.
    replace (S i * cols - cols)%nat with (i * cols)%nat by lia.
    rewrite skipn_all2 by lia. reflexivity.
Qed.

Lemma reshape_id (rows cols : nat) (t : tensor2) :
  List.length t = rows ->
  Forall (fun r => List.length r = cols) t ->
  reshape rows cols t = Ok t.
Proof.
  intros Hrows Hcols. unfold reshape.
  rewrite (concat_length_uniform cols t Hcols), Hrows, Nat.eqb_refl.
  subst rows. now rewrite regroup_rows.
Qed.

(** ** The flow bank *)

Lemma rmapM_nth_error {A B : Type} (f : A -> B) (pre l : list A) :
  rmapM (fun c => match nth_error (pre ++ l) c with
                  | Some a => Ok (f a)
                  | None => Raise IndexError
                  end)
        (seq (List.length pre) (List.length l))
  = Ok (map f l).
Proof.
  revert pre. induction l as [|a l IH]; intros pre; cbn [List.length seq rmapM];
    [reflexivity|].
  rewrite nth_error_app2, Nat.sub_diag by lia. cbn [nth_error rbind].
  specialize (IH (pre ++ [a])).
  rewrite <- app_assoc, length_app, Nat.add_1_r in IH. cbn [app] in IH.
  rewrite IH. reflexivity.
Qed.

Lemma flow_bank_outputs_ok (splines : list NormalizingFlow)
  (residuals : tensor2) :
  flow_bank_outputs splines (List.length splines) residuals
  = Ok (map (fun spline =>
               NormalizingFlow_forward (flow_params spline) residuals)
            splines).
Proof. unfold flow_bank_outputs. apply (rmapM_nth_error _ []). Qed.

Lemma uniform_shape (rows cols : nat) (t : tensor2) :
  List.length t = rows ->
  Forall (fun r => List.length r = cols) t ->
  map (@List.length R) t = repeat cols rows.
Proof.
  intros Hrows Hcols. subst rows.
  induction Hcols as [|e t He Ht IH]; cbn; [|rewrite IH, He]; reflexivity.
Qed.

Lemma same_shape2_uniform (rows cols : nat) (a b : tensor2) :
  List.length a = rows -> Forall (fun r => List.length r = cols) a ->
  List.length b = rows -> Forall (fun r => List.length r = cols) b ->
  same_shape2 a b = true.
Proof.
  intros Ha Ha' Hb Hb'. unfold same_shape2.
  rewrite (uniform_shape rows cols a), (uniform_shape rows cols b) by auto.
  destruct (list_eq_dec _ _ _); congruence.
Qed.

Lemma Forall_map2 {A B C : Type} (P : C -> Prop) (f : A -> B -> C)
  (l1 : list A) (l2 : list B) :
  (forall a b, In (a, b) (combine l1 l2) -> P (f a b)) ->
  Forall P (map2 f l1 l2).
Proof.
  revert l2. induction l1 as [|a l1 IH]; intros [|b l2] Hf; cbn; auto.
  constructor; [apply Hf; now left|]. apply IH. intros a' b' Hin.
  apply Hf. now right.
Qed.

Lemma Forall_nth_length (s : nat) (t : tensor2) (b : nat) :
  Forall (fun r => List.length r = s) t -> (b < List.length t)%nat ->
  List.length (nth b t []) = s.
Proof.
  intros Ht. revert b. induction Ht as [|e t He Ht IH]; intros [|b] Hb;
    cbn in *; try lia; auto. apply IH. lia.
Qed.

(** The output of the flow of an in-range label. *)
Lemma flow_output_in_range (s : nat) (splines : list NormalizingFlow)
  (residuals : tensor2) (l : Z) :
  Forall (flow_shaped s residuals) splines ->
  (0 <= l < Z.of_nat (List.length splines))%Z ->
  exists spline,
    nth_error splines (Z.to_nat l) = Some spline
    /\ flow_shaped s residuals spline
    /\ flow_output splines l residuals
       = NormalizingFlow_forward (flow_params spline) residuals.
Proof.
  intros Hsh Hl. unfold flow_output.
  destruct (nth_error splines (Z.to_nat l)) as [spline|] eqn:Hnth.
  - exists spline. split; [reflexivity|]. split; [|reflexivity].
    rewrite Forall_forall in Hsh. apply Hsh. eapply nth_error_In; eauto.
  - apply nth_error_None in Hnth. lia.
Qed.

Lemma stack_es_ok (s : nat) (residuals : tensor2)
  (splines : list NormalizingFlow) :
  splines <> [] ->
  Forall (flow_shaped s residuals) splines ->
  let es := map fst (map (fun spline =>
              NormalizingFlow_forward (flow_params spline) residuals) splines) in
  torch_stack1 same_shape2 [] es
  = Ok (map (fun b => map (fun t => nth b t []) es)
            (seq 0 (List.length residuals))).
Proof.
  intros Hne Hsh. cbn zeta.
  destruct splines as [|sp0 rest]; [congruence|]. clear Hne.
  unfold torch_stack1. cbn [map].
  inversion Hsh as [|? ? Hsp0 Hrest]; subst.
  destruct Hsp0 as (Hrows0 & Hcols0 & _).
  rewrite Hrows0.
  replace (forallb _ _) with true; [reflexivity|].
  symmetry. apply forallb_forall. intros t Ht.
  assert (Hin : In t (fst (NormalizingFlow_forward (flow_params sp0) residuals)
                      :: map fst (map (fun spline =>
                           NormalizingFlow_forward (flow_params spline) residuals)
                           rest))) by exact Ht.
  rewrite map_map in Hin.
  change (In t (map (fun spline =>
                  fst (NormalizingFlow_forward (flow_params spline) residuals))
                (sp0 :: rest))) in Hin.
  apply in_map_iff in Hin. destruct Hin as (sp & <- & Hsp).
  rewrite Forall_forall in Hsh. destruct (Hsh sp Hsp) as (Hrows & Hcols & _).
  eapply same_shape2_uniform; eauto.
Qed.

Lemma stack_logabsdet_ok (s : nat) (residuals : tensor2)
  (splines : list NormalizingFlow) :
  splines <> [] ->
  Forall (flow_shaped s residuals) splines ->
  let ls := map snd (map (fun spline =>
              NormalizingFlow_forward (flow_params spline) residuals) splines) in
  torch_stack1 same_shape1 0 ls
  = Ok (map (fun b => map (fun t => nth b t 0) ls)
            (seq 0 (List.length residuals))).
Proof.
  intros Hne Hsh. cbn zeta.
  destruct splines as [|sp0 rest]; [congruence|]. clear Hne.
  unfold torch_stack1. cbn [map].
  inversion Hsh as [|? ? Hsp0 Hrest]; subst.
  destruct Hsp0 as (_ & _ & Hlen0).
  rewrite Hlen0.
  replace (forallb _ _) with true; [reflexivity|].
  symmetry. apply forallb_forall. intros t Ht.
  assert (Hin : In t (snd (NormalizingFlow_forward (flow_params sp0) residuals)
                      :: map snd (map (fun spline =>
                           NormalizingFlow_forward (flow_params spline) residuals)
                           rest))) by exact Ht.
  rewrite map_map in Hin.
  change (In t (map (fun spline =>
                  snd (NormalizingFlow_forward (flow_params spline) residuals))
                (sp0 :: rest))) in Hin.
  apply in_map_iff in Hin. destruct Hin as (sp & <- & Hsp).
  rewrite Forall_forall in Hsh. destruct (Hsh sp Hsp) as (_ & _ & Hlen).
  unfold same_shape1. rewrite Hlen, Hlen0. apply Nat.eqb_refl.
Qed.

Lemma masked_flow_select_ok (splines : list NormalizingFlow)
  (n s batch_size : nat) (c : list Z) (residuals : tensor2) :
  List.length splines = n ->
  Forall (flow_shaped s residuals) splines ->
  forallb (label_in_range n) c = true ->
  List.length c = List.length residuals ->
  batch_size = List.length residuals ->
  residuals <> [] ->
  masked_flow_select splines n s batch_size c residuals
  = Ok (gather_reference splines c residuals).
Proof.
  intros Hn Hsh Hlab Hc HB Hres. subst n batch_size.
  assert (Hrange : forall l, In l c ->
                     (0 <= l < Z.of_nat (List.length splines))%Z).
  { intros l Hl. rewrite forallb_forall in Hlab. specialize (Hlab l Hl).
    unfold label_in_range in Hlab. lia. }
  assert (Hne : splines <> []).
  { destruct c as [|l0 c'].
    - destruct residuals; [congruence | discriminate].
    - specialize (Hrange l0 (or_introl eq_refl)).
      destruct splines; [cbn in Hrange; lia | discriminate]. }
  unfold masked_flow_select, F_one_hot. rewrite Hlab. cbn [rbind].
  rewrite flow_bank_outputs_ok. cbn [rbind].
  rewrite (stack_es_ok s residuals splines Hne Hsh). cbn [rbind].
  rewrite (stack_logabsdet_ok s residuals splines Hne Hsh). cbn [rbind].
  unfold masked_sum3, masked_sum2.
  rewrite !length_map, length_seq, Hc, Nat.eqb_refl. cbn [rbind].
  rewrite !map2_map.
  set (F := fun spline : NormalizingFlow =>
              NormalizingFlow_forward (flow_params spline) residuals).
  assert (Hes :
    map2 (fun b l =>
            sum_axis0
              (map2 (fun e m => map (fun v => v * IZR m) e)
                    (map (fun t => nth b t []) (map fst (map F splines)))
                    (map (fun k => if (Z.of_nat k =? l)%Z then 1%Z else 0%Z)
                         (seq 0 (List.length splines)))))
         (seq 0 (List.length residuals)) c
    = fst (gather_reference splines c residuals)).
  { unfold gather_reference. cbn [fst]. apply map2_ext_in.
    intros b l Hin.
    pose proof (in_combine_l _ _ _ _ Hin) as Hb. apply in_seq in Hb.
    pose proof (in_combine_r _ _ _ _ Hin) as Hl. apply Hrange in Hl.
    destruct (flow_output_in_range s splines residuals l Hsh Hl)
      as (sp & Hnth & _ & ->).
    pose proof (sum_axis0_onehot l s
                  (map (fun t : tensor2 => nth b t [])
                       (map fst (map F splines)))) as E.
    rewrite !length_map in E. etransitivity; [apply E|].
    - rewrite !map_map. apply Forall_map.
      eapply Forall_impl; [|exact Hsh]. intros sp' (Hr & Hcls & _).
      apply Forall_nth_length; [exact Hcls|]. unfold F.
      unfold tensor2, tensor1 in *. lia.
    - exact Hl.
    - rewrite !map_map.
      erewrite nth_error_nth; [reflexivity|].
      rewrite nth_error_map, Hnth. reflexivity. }
  assert (Hld :
    map2 (fun b l =>
            sum1 (map2 (fun v m => v * IZR m)
                       (map (fun t => nth b t 0) (map snd (map F splines)))
                       (map (fun k => if (Z.of_nat k =? l)%Z then 1%Z else 0%Z)
                            (seq 0 (List.length splines)))))
         (seq 0 (List.length residuals)) c
    = snd (gather_reference splines c residuals)).
  { unfold gather_reference. cbn [snd]. apply map2_ext_in.
    intros b l Hin.
    pose proof (in_combine_r _ _ _ _ Hin) as Hl. apply Hrange in Hl.
    destruct (flow_output_in_range s splines residuals l Hsh Hl)
      as (sp & Hnth & _ & ->).
    pose proof (sum1_onehot l
                  (map (fun t : tensor1 => nth b t 0)
                       (map snd (map F splines)))) as E.
    rewrite !length_map in E. etransitivity; [apply E; exact Hl|].
    rewrite !map_map.
    erewrite nth_error_nth; [reflexivity|].
    rewrite nth_error_map, Hnth. reflexivity. }
  rewrite Hes, Hld. rewrite reshape_id.
  - cbn [rbind]. now destruct (gather_reference splines c residuals).
  - unfold gather_reference. cbn [fst].
    rewrite map2_length; rewrite length_seq; auto.
  - unfold gather_reference. cbn [fst]. apply Forall_map2.
    intros b l Hin.
    pose proof (in_combine_l _ _ _ _ Hin) as Hb. apply in_seq in Hb.
    pose proof (in_combine_r _ _ _ _ Hin) as Hl. apply Hrange in Hl.
    destruct (flow_output_in_range s splines residuals l Hsh Hl)
      as (sp & _ & (Hr & Hcls & _) & ->).
    apply Forall_nth_length; [exact Hcls|].
    unfold tensor2, tensor1 in *. lia.
Qed.

(** ** A step on a well-formed batch returns *)

Lemma embed_input_rows (s : SSA) (x : tensor2) (c : list Z) (x' : tensor2) :
  embed_input s x c = Ok x' -> List.length x' = List.length x.
Proof.
  unfold embed_input, torch_cat1.
  destruct (Nat.ltb 0 (embedding_dim (cfg s))).
  - destruct (Nat.eqb_spec (List.length x) (List.length (embeddings s c)))
      as [Hl|Hl]; [|discriminate].
    intros Hx. inversion Hx. now apply map2_length.
  - intros Hx. now inversion Hx.
Qed.

Lemma reconstruction_loss_supported (x x_recon : tensor2) (dist : string) :
  x <> [] ->
  In dist ["bernoulli"; "gaussian"; "sigmoid_gaussian"]%string ->
  exists v, reconstruction_loss x x_recon dist = Ok v.
Proof.
  intros Hx Hd. unfold reconstruction_loss.
  destruct x as [|r x]; [congruence|]. cbn [List.length Nat.eqb].
  destruct Hd as [<-|[<-|[<-|[]]]]; cbn; eauto.
Qed.

Lemma style_kld_defined (splines : list NormalizingFlow)
  (n cd s batch_size : nat) (c : list Z) (zs log_qz : tensor2) :
  List.length splines = n ->
  Forall (flow_shaped s (cols_from cd zs)) splines ->
  forallb (label_in_range n) c = true ->
  List.length c = List.length zs ->
  batch_size = List.length zs ->
  zs <> [] ->
  exists v, style_kld splines n cd s batch_size c zs log_qz = Ok v.
Proof.
  intros Hn Hsh Hlab Hc HB Hzs. unfold style_kld.
  rewrite (masked_flow_select_ok splines n s batch_size c (cols_from cd zs));
    auto.
  - cbn [rbind]. destruct (gather_reference _ _ _). eauto.
  - unfold cols_from. now rewrite length_map.
  - unfold cols_from. now rewrite length_map.
  - destruct zs; [congruence | discriminate].
Qed.

Lemma elbo_terms_defined (s : SSA) (batch : Batch) :
  step_well_formed s batch ->
  exists recon kc ks, elbo_terms s batch = Ok (recon, kc, ks).
Proof.
  intros (Hx & Hc & Hlab & Hdist & Hn & x' & Hemb & Hnet).
  unfold elbo_terms. rewrite Hemb. cbn [rbind].
  pose proof (embed_input_rows _ _ _ _ Hemb) as Hrows.
  destruct (net s x') as [[[x_recon mus] logvars] zs].
  destruct Hnet as (Hzs & Hsh).
  destruct (reconstruction_loss_supported x' x_recon (decoder_dist (cfg s)))
    as (recon & ->); auto.
  { destruct x'; [|discriminate]. destruct (batch_x batch); [congruence|].
    discriminate. }
  cbn [rbind].
  destruct (style_kld_defined (spline_list s) (nclass (cfg s)) (c_dim (cfg s))
              (s_dim (cfg s)) (List.length (batch_x batch)) (batch_c batch) zs
              (log_prob (D_Normal mus (exp_half logvars)) zs))
    as (ks & ->); auto; try congruence.
  - destruct zs; [|discriminate]. destruct (batch_x batch); [congruence|].
    discriminate.
  - cbn [rbind]. eauto.
Qed.

Lemma encoded_mus_defined (s : SSA) (batch : Batch) (t : R * R * R) :
  elbo_terms s batch = Ok t -> exists mus, encoded_mus s batch = Ok mus.
Proof.
  unfold elbo_terms, encoded_mus.
  destruct (embed_input s (batch_x batch) (batch_c batch)) as [x|e]; cbn;
    [|discriminate].
  destruct (net s x) as [[[x_recon mus] logvars] zs]. eauto.
Qed.

Lemma training_step_returns (batch : Batch) (batch_idx : nat) (st : State) :
  step_well_formed (self st) batch ->
  exists loss st', training_step batch batch_idx st = (Ok loss, st').
Proof.
  intros Hwf. rewrite training_step_eq.
  destruct (elbo_terms_defined _ _ Hwf) as (recon & kc & ks & ->). eauto.
Qed.

Lemma validation_step_returns (batch : Batch) (batch_idx : nat) (st : State) :
  step_well_formed (self st) batch ->
  batch_y batch <> None ->
  exists loss st', validation_step batch batch_idx st = (Ok loss, st').
Proof.
  intros Hwf Hy. rewrite validation_step_eq.
  destruct (batch_y batch) as [y|]; [|congruence].
  destruct (elbo_terms_defined _ _ Hwf) as (recon & kc & ks & Ht).
  destruct (encoded_mus_defined _ _ _ Ht) as (mus & Hm).
  rewrite Ht, Hm. eauto.
Qed.

(** What a validation step that returns has done. *)
Lemma validation_step_inv (batch : Batch) (batch_idx : nat) (st : State)
  (loss : R) (st' : State) :
  validation_step batch batch_idx st = (Ok loss, st') ->
  exists y mus recon kc ks,
    batch_y batch = Some y
    /\ encoded_mus (self st) batch = Ok mus
    /\ elbo_terms (self st) batch = Ok (recon, kc, ks)
    /\ loss = recon + beta (cfg (self st)) * kc + gamma (cfg (self st)) * ks
    /\ let r2 := r2_metric (self st) mus y in
       let mcc := mcc_metric (self st) mus y in
       let b' := update_best r2 mcc (best (self st)) in
       self st' = set_val_r2 r2 (with_best (fun _ => b') (self st))
       /\ sink st' = sink st ++ validation_log recon kc ks loss r2 mcc b'.
Proof.
  rewrite validation_step_eq.
  destruct (batch_y batch) as [y|]; [|discriminate].
  destruct (elbo_terms (self st) batch) as [[[recon kc] ks]|e];
    [|discriminate].
  destruct (encoded_mus (self st) batch) as [mus|e]; [|discriminate].
  cbn zeta. intros Heq. inversion Heq; subst. cbn [self sink].
  exists y, mus, recon, kc, ks. repeat split; reflexivity.
Qed.

(** ** Running bests *)

Lemma geb_true (a b : R) : geb a b = true <-> a >= b.
Proof. unfold geb. destruct (Rge_dec a b); split; auto; discriminate. Qed.

Lemma geb_refl (a : R) : geb a a = true.
Proof. apply geb_true. lra. Qed.

Ltac case_geb :=
  match goal with
  | |- context [geb ?a ?b] =>
      let Hg := fresh "Hg" in
      destruct (geb a b) eqn:Hg;
      [apply geb_true in Hg | apply not_true_iff_false in Hg;
                              rewrite geb_true in Hg]
  end.

Lemma update_best_r2 (r2 mcc : R) (b : RunningBest) :
  best_r2 (update_best r2 mcc b) = (if geb r2 (best_r2 b) then r2 else best_r2 b)
  /\ mcc_at_best_r2 (update_best r2 mcc b)
     = (if geb r2 (best_r2 b) then mcc else mcc_at_best_r2 b).
Proof.
  unfold update_best. destruct (geb r2 (best_r2 b)); cbn;
    destruct (geb mcc (best_mcc b)); cbn;
    destruct (geb (mcc + r2) (best_sum b)); cbn; auto.
Qed.

Lemma update_best_mcc (r2 mcc : R) (b : RunningBest) :
  best_mcc (update_best r2 mcc b)
  = (if geb mcc (best_mcc b) then mcc else best_mcc b)
  /\ r2_at_best_mcc (update_best r2 mcc b)
     = (if geb mcc (best_mcc b) then r2 else r2_at_best_mcc b).
Proof.
  unfold update_best. destruct (geb r2 (best_r2 b)); cbn;
    destruct (geb mcc (best_mcc b)); cbn;
    destruct (geb (mcc + r2) (best_sum b)); cbn; auto.
Qed.

Lemma update_best_sum (r2 mcc : R) (b : RunningBest) :
  best_sum (update_best r2 mcc b)
  = (if geb (mcc + r2) (best_sum b) then mcc + r2 else best_sum b)
  /\ best_sum_mcc (update_best r2 mcc b)
     = (if geb (mcc + r2) (best_sum b) then mcc else best_sum_mcc b)
  /\ best_sum_r2 (update_best r2 mcc b)
     = (if geb (mcc + r2) (best_sum b) then r2 else best_sum_r2 b).
Proof.
  unfold update_best. destruct (geb r2 (best_r2 b)); cbn;
    destruct (geb mcc (best_mcc b)); cbn;
    destruct (geb (mcc + r2) (best_sum b)); cbn; auto.
Qed.

Lemma maxima_le_refl (b : RunningBest) : maxima_le b b.
Proof. unfold maxima_le. lra. Qed.

Lemma maxima_le_trans (b1 b2 b3 : RunningBest) :
  maxima_le b1 b2 -> maxima_le b2 b3 -> maxima_le b1 b3.
Proof. unfold maxima_le. lra. Qed.

Lemma update_best_maxima (r2 mcc : R) (b : RunningBest) :
  maxima_le b (update_best r2 mcc b).
Proof.
  unfold maxima_le.
  destruct (update_best_r2 r2 mcc b) as [-> _].
  destruct (update_best_mcc r2 mcc b) as [-> _].
  destruct (update_best_sum r2 mcc b) as [-> _].
  repeat case_geb; lra.
Qed.

Lemma validation_step_maxima (batch : Batch) (batch_idx : nat) (st : State) :
  maxima_le (best (self st))
            (best (self (snd (validation_step batch batch_idx st)))).
Proof.
  rewrite validation_step_eq.
  destruct (batch_y batch) as [y|]; [|apply maxima_le_refl].
  destruct (elbo_terms (self st) batch) as [[[recon kc] ks]|e];
    [|apply maxima_le_refl].
  destruct (encoded_mus (self st) batch) as [mus|e]; [|apply maxima_le_refl].
  cbn. apply update_best_maxima.
Qed.

Lemma validation_epoch_maxima (batches : list Batch) (batch_idx : nat)
  (st : State) :
  maxima_le (best (self st))
            (best (self (snd (validation_epoch batches batch_idx st)))).
Proof.
  revert batch_idx st. induction batches as [|batch rest IH];
    intros batch_idx st; cbn [validation_epoch].
  - apply maxima_le_refl.
  - unfold bind.
    pose proof (validation_step_maxima batch batch_idx st) as Hstep.
    destruct (validation_step batch batch_idx st) as [[loss|e] st1]; cbn in *.
    + eapply maxima_le_trans; [exact Hstep | apply IH].
    + exact Hstep.
Qed.

Lemma SSA_init_best (args : Config) (s : SSA) :
  SSA_init args = Ok s -> best s = init_best /\ cfg s = args.
Proof.
  unfold SSA_init. intros Hs. apply rbind_ok in Hs.
  destruct Hs as (splines & _ & Hs). inversion Hs. cbn. auto.
Qed.

(** ** The claims *)

(** C1. The loss a training step or a validation step returns is
    [recon_loss + beta * kld_content + gamma * kld_style] for the three terms
    the step computes on the batch, whatever the weights [beta] and [gamma]
    (non-negative or not); a training step logs these terms, and on a
    well-formed batch both steps do return a loss. *)
Theorem elbo_loss_is_weighted_sum (batch : Batch) (batch_idx : nat)
  (st : State) :
  (forall loss st',
      training_step batch batch_idx st = (Ok loss, st')
      \/ validation_step batch batch_idx st = (Ok loss, st') ->
      exists recon kc ks,
        elbo_terms (self st) batch = Ok (recon, kc, ks)
        /\ loss = recon + beta (cfg (self st)) * kc
                  + gamma (cfg (self st)) * ks)
  /\ (forall loss st',
         training_step batch batch_idx st = (Ok loss, st') ->
         exists recon kc ks,
           sink st' = sink st ++ [("train_elbo_loss", loss);
                                  ("train_recon_loss", recon);
                                  ("train_kld_content", kc);
                                  ("train_kld_style", ks)]%string
           /\ loss = recon + beta (cfg (self st)) * kc
                     + gamma (cfg (self st)) * ks)
  /\ (step_well_formed (self st) batch ->
      (exists loss st', training_step batch batch_idx st = (Ok loss, st'))
      /\ (batch_y batch <> None ->
          exists loss st', validation_step batch batch_idx st = (Ok loss, st'))).
Proof.
  split; [|split].
  - intros loss st' [Ht|Hv].
    + rewrite training_step_eq in Ht.
      destruct (elbo_terms (self st) batch) as [[[recon kc] ks]|e];
        [|discriminate].
      inversion Ht. eauto.
    + apply validation_step_inv in Hv.
      destruct Hv as (y & mus & recon & kc & ks & _ & _ & Ht & Hl & _). eauto.
  - intros loss st' Ht. rewrite training_step_eq in Ht.
    destruct (elbo_terms (self st) batch) as [[[recon kc] ks]|e];
      [|discriminate].
    inversion Ht. cbn. eauto.
  - intros Hwf. split.
    + now apply training_step_returns.
    + intros Hy. now apply validation_step_returns.
Qed.

(** *** The masked selection with non-finite entries *)

Lemma fl_mul_one (v : fl) : fl_mul v (Fin 1) = v.
Proof.
  destruct v as [x| | |]; cbn.
  - f_equal. lra.
  - unfold fl_scale_inf. destruct (Rlt_dec 0 1); [reflexivity | lra].
  - unfold fl_scale_inf. destruct (Rlt_dec 0 1); [reflexivity | lra].
  - reflexivity.
Qed.

Lemma fl_add_zero_r (v : fl) : fl_add v (Fin 0) = v.
Proof. destruct v as [x| | |]; cbn; try reflexivity. f_equal. lra. Qed.

Lemma fl_add_masked_out (v w : fl) :
  is_finite v = true -> fl_add (fl_mul v (Fin 0)) w = w.
Proof.
  destruct v as [x| | |]; try discriminate. intros _.
  destruct w as [y| | |]; cbn; try reflexivity. f_equal. lra.
Qed.

Lemma fvadd_zero_r (e : ftensor1) :
  fvadd e (repeat (Fin 0) (List.length e)) = e.
Proof.
  unfold fvadd. induction e as [|v e IH]; cbn; [reflexivity|].
  now rewrite IH, fl_add_zero_r.
Qed.

Lemma fvadd_masked_out (e w : ftensor1) :
  forallb is_finite e = true ->
  List.length e = List.length w ->
  fvadd (map (fun v => fl_mul v (Fin (IZR 0))) e) w = w.
Proof.
  unfold fvadd. revert w. induction e as [|v e IH]; intros [|x w] Hfin Hl;
    cbn in *; try discriminate; [reflexivity|].
  apply andb_prop in Hfin. destruct Hfin as [Hv He].
  rewrite IH by (auto; lia). now rewrite fl_add_masked_out.
Qed.

Lemma fscaled_one (e : ftensor1) :
  map (fun v => fl_mul v (Fin (IZR 1))) e = e.
Proof.
  rewrite (map_ext _ (fun v => v)) by (intros; apply fl_mul_one).
  apply map_id.
Qed.

Lemma rows_nth_length {A : Type} (s : nat) (t : list (list A)) (b : nat) :
  Forall (fun r => List.length r = s) t -> (b < List.length t)%nat ->
  List.length (nth b t []) = s.
Proof.
  intros Ht. revert b. induction Ht as [|e t He Ht IH]; intros [|b] Hb;
    cbn in *; try lia; auto. apply IH. lia.
Qed.

Lemma fl_onehot_sum1 (l : Z) (row : ftensor1) (start : nat) :
  (forall i, (i < List.length row)%nat -> Z.of_nat (start + i) <> l ->
             is_finite (nth i row (Fin 0)) = true) ->
  let masked :=
    map2 (fun v m => fl_mul v (Fin (IZR m))) row
         (map (fun k => if (Z.of_nat k =? l)%Z then 1%Z else 0%Z)
              (seq start (List.length row))) in
  ((l < Z.of_nat start)%Z -> fsum1 masked = Fin 0)
  /\ ((Z.of_nat start <= l < Z.of_nat (start + List.length row))%Z ->
      fsum1 masked = nth (Z.to_nat l - start) row (Fin 0)).
Proof.
  revert start. induction row as [|v row IH]; intros start Hfin; cbn zeta.
  - split; [reflexivity|]. cbn. lia.
  - assert (Htail : forall i, (i < List.length row)%nat ->
              Z.of_nat (S start + i) <> l ->
              is_finite (nth i row (Fin 0)) = true).
    { intros i Hi Hne. apply (Hfin (S i)); cbn; lia. }
    specialize (IH (S start) Htail). cbn zeta in IH.
    destruct IH as [IHlow IHin].
    cbn [List.length seq map map2]. unfold fsum1 in *.
    cbn [fold_right].
    destruct (Z.eqb_spec (Z.of_nat start) l) as [Heq|Hne]; split; intros Hl.
    + lia.
    + rewrite IHlow by lia. rewrite fl_mul_one, fl_add_zero_r.
      replace (Z.to_nat l - start)%nat with 0%nat by lia. reflexivity.
    + rewrite IHlow by lia. apply fl_add_masked_out.
      apply (Hfin 0%nat); cbn; lia.
    + rewrite IHin by lia.
      replace (Z.to_nat l - start)%nat with (S (Z.to_nat l - S start)) by lia.
      cbn [nth]. apply fl_add_masked_out. apply (Hfin 0%nat); cbn; lia.
Qed.

Lemma fl_onehot_sum_axis0 (l : Z) (s : nat) (rows : ftensor2) (start : nat) :
  Forall (fun e => List.length e = s) rows ->
  (forall i, (i < List.length rows)%nat -> Z.of_nat (start + i) <> l ->
             forallb is_finite (nth i rows []) = true) ->
  let masked :=
    map2 (fun e m => map (fun v => fl_mul v (Fin (IZR m))) e) rows
         (map (fun k => if (Z.of_nat k =? l)%Z then 1%Z else 0%Z)
              (seq start (List.length rows))) in
  ((l < Z.of_nat start)%Z ->
   fold_right fvadd (repeat (Fin 0) s) masked = repeat (Fin 0) s)
  /\ ((Z.of_nat start <= l < Z.of_nat (start + List.length rows))%Z ->
      fold_right fvadd (repeat (Fin 0) s) masked
      = nth (Z.to_nat l - start) rows []).
Proof.
  intros Hrows. revert start.
  induction Hrows as [|e rows He Hrows IH]; intros start Hfin; cbn zeta.
  - split; [reflexivity|]. cbn. lia.
  - assert (Htail : forall i, (i < List.length rows)%nat ->
              Z.of_nat (S start + i) <> l ->
              forallb is_finite (nth i rows []) = true).
    { intros i Hi Hne. apply (Hfin (S i)); cbn [List.length]; unfold ftensor1 in *; lia. }
    specialize (IH (S start) Htail). cbn zeta in IH.
    destruct IH as [IHlow IHin].
    cbn [List.length seq map map2 fold_right].
    destruct (Z.eqb_spec (Z.of_nat start) l) as [Heq|Hne]; split; intros Hl.
    + lia.
    + rewrite IHlow by lia. rewrite fscaled_one, <- He, fvadd_zero_r.
      replace (Z.to_nat l - start)%nat with 0%nat by lia. reflexivity.
    + rewrite IHlow by lia. apply fvadd_masked_out.
      * apply (Hfin 0%nat); cbn [List.length]; unfold ftensor1 in *; lia.
      * now rewrite repeat_length.
    + rewrite IHin by lia.
      replace (Z.to_nat l - start)%nat with (S (Z.to_nat l - S start)) by lia.
      cbn [nth]. apply fvadd_masked_out.
      * apply (Hfin 0%nat); cbn [List.length]; unfold ftensor1 in *; lia.
      * rewrite He. symmetry. apply rows_nth_length; [exact Hrows|].
        cbn [List.length] in Hl. unfold ftensor1 in *. lia.
Qed.

Lemma concat_rows_length {A : Type} (cols : nat) (t : list (list A)) :
  Forall (fun r => List.length r = cols) t ->
  List.length (concat t) = (List.length t * cols)%nat.
Proof.
  induction 1 as [|e t He Ht IH]; cbn; [reflexivity|].
  rewrite length_app, IH, He. reflexivity.
Qed.

Lemma regroup_any_rows {A : Type} (cols : nat) (t : list (list A)) :
  Forall (fun r => List.length r = cols) t ->
  map (fun i => firstn cols (skipn (i * cols) (concat t)))
      (seq 0 (List.length t)) = t.
Proof.
  induction 1 as [|e t He Ht IH]; cbn [List.length seq map concat];
    [reflexivity|].
  f_equal.
  - cbn. rewrite firstn_app, He, Nat.sub_diag. cbn.
    rewrite <- He, firstn_all. apply app_nil_r.
  - rewrite <- seq_shift, map_map. rewrite <- IH at 2.
    apply map_ext. intros i. f_equal.
    rewrite skipn_app, He.
    replace (S i * cols - cols)%nat with (i * cols)%nat by lia.
    rewrite skipn_all2 by lia. reflexivity.
Qed.

Lemma reshape_rows_id {A : Type} (rows cols : nat) (t : list (list A)) :
  List.length t = rows ->
  Forall (fun r => List.length r = cols) t ->
  reshape_rows rows cols t = Ok t.
Proof.
  intros Hrows Hcols. unfold reshape_rows.
  rewrite (concat_rows_length cols t Hcols), Hrows, Nat.eqb_refl.
  subst rows. now rewrite regroup_any_rows.
Qed.

Lemma combine_seq_nth_error {A : Type} (c : list A) (start n b : nat) (l : A) :
  In (b, l) (combine (seq start n) c) ->
  (start <= b < start + n)%nat /\ nth_error c (b - start) = Some l.
Proof.
  revert start n. induction c as [|a c IH]; intros start [|n] Hin;
    cbn in Hin; try contradiction.
  destruct Hin as [Heq|Hin].
  - inversion Heq; subst. rewrite Nat.sub_diag. cbn. split; [lia | reflexivity].
  - apply IH in Hin. destruct Hin as [Hb Hnth]. split; [lia|].
    replace (b - start)%nat with (S (b - S start)) by lia. exact Hnth.
Qed.

Lemma stack_outputs_ok (s batch_size : nat)
  (outs : list (ftensor2 * ftensor1)) :
  outs <> [] ->
  Forall (outputs_shaped s batch_size) outs ->
  torch_stack1 same_rows [] (map fst outs)
  = Ok (map (fun b => map (fun t => nth b t []) (map fst outs))
            (seq 0 batch_size))
  /\ torch_stack1 same_length (Fin 0) (map snd outs)
     = Ok (map (fun b => map (fun t => nth b t (Fin 0)) (map snd outs))
               (seq 0 batch_size)).
Proof.
  intros Hne Hsh. destruct outs as [|out0 rest]; [congruence|]. clear Hne.
  unfold torch_stack1. cbn [map].
  unfold outputs_shaped, ftensor2, ftensor1 in *.
  pose proof Hsh as Hall. rewrite Forall_forall in Hall.
  destruct (Hall out0 (or_introl eq_refl)) as (Hr0 & Hc0 & Hl0).
  rewrite Hr0, Hl0. split.
  - replace (forallb _ _) with true; [reflexivity|].
    symmetry. apply forallb_forall. intros t Ht.
    change (In t (map fst (out0 :: rest))) in Ht.
    apply in_map_iff in Ht. destruct Ht as (out & <- & Hout).
    destruct (Hall out Hout) as (Hr & Hc & _).
    unfold same_rows.
    replace (map (@List.length fl) (fst out0)) with (repeat s batch_size).
    + replace (map (@List.length fl) (fst out)) with (repeat s batch_size).
      * destruct (list_eq_dec _ _ _); congruence.
      * clear -Hr Hc. subst batch_size.
        induction Hc as [|e t He Ht IH]; cbn; [|rewrite <- IH, He]; reflexivity.
    + clear -Hr0 Hc0. subst batch_size.
      induction Hc0 as [|e t He Ht IH]; cbn; [|rewrite <- IH, He]; reflexivity.
  - replace (forallb _ _) with true; [reflexivity|].
    symmetry. apply forallb_forall. intros t Ht.
    change (In t (map snd (out0 :: rest))) in Ht.
    apply in_map_iff in Ht. destruct Ht as (out & <- & Hout).
    destruct (Hall out Hout) as (_ & _ & Hl).
    unfold same_length. rewrite Hl, Hl0. apply Nat.eqb_refl.
Qed.

(** C2, amended. For a batch of at least one row whose labels lie in
    [0, nclass), with the outputs of the [nclass] flows shaped as the batch,
    the masked-sum selection (stack, multiply by the one-hot mask, sum) gives
    each row with label [k] exactly the transformed value and log|det J| of
    flow [k] on that row, provided what the other flows return on that row
    is finite. The selected output itself may be anything: it is multiplied
    by 1. *)
Theorem masked_selection_is_row_gather_when_finite
  (outs : list (ftensor2 * ftensor1)) (n s batch_size : nat) (c : list Z) :
  List.length outs = n ->
  Forall (outputs_shaped s batch_size) outs ->
  forallb (label_in_range n) c = true ->
  List.length c = batch_size ->
  batch_size <> 0%nat ->
  unselected_finite outs c ->
  masked_select_ieee outs n s batch_size c
  = Ok (gather_ieee outs c batch_size).
Proof.
  intros Hn Hsh Hlab Hc HB Hfin. subst n.
  assert (Hrange : forall l, In l c ->
                     (0 <= l < Z.of_nat (List.length outs))%Z).
  { intros l Hl. rewrite forallb_forall in Hlab. specialize (Hlab l Hl).
    unfold label_in_range in Hlab. lia. }
  assert (Hne : outs <> []).
  { destruct c as [|l0 c']; [cbn in Hc; congruence|].
    specialize (Hrange l0 (or_introl eq_refl)).
    destruct outs; [cbn in Hrange; lia | discriminate]. }
  assert (Hout : forall l, In l c ->
            exists out, nth_error outs (Z.to_nat l) = Some out
                        /\ nth (Z.to_nat l) outs ([], []) = out
                        /\ outputs_shaped s batch_size out).
  { intros l Hl. apply Hrange in Hl.
    destruct (nth_error outs (Z.to_nat l)) as [out|] eqn:Hnth.
    - exists out. split; [reflexivity|]. split.
      + now apply nth_error_nth.
      + rewrite Forall_forall in Hsh. apply Hsh.
        eapply nth_error_In; eauto.
    - apply nth_error_None in Hnth. lia. }
  unfold masked_select_ieee, F_one_hot. rewrite Hlab. cbn [rbind].
  destruct (stack_outputs_ok s batch_size outs Hne Hsh) as [-> ->].
  cbn [rbind]. unfold masked_sum3_ieee, masked_sum2_ieee, broadcast_rows.
  rewrite !length_map, length_seq, Hc, Nat.eqb_refl. cbn [rbind].
  rewrite !map2_map.
  assert (Hes :
    map2 (fun b l =>
            fsum_axis0
              (map2 (fun e m => map (fun v => fl_mul v (Fin (IZR m))) e)
                    (map (fun t => nth b t []) (map fst outs))
                    (map (fun k => if (Z.of_nat k =? l)%Z then 1%Z else 0%Z)
                         (seq 0 (List.length outs)))))
         (seq 0 batch_size) c
    = fst (gather_ieee outs c batch_size)).
  { unfold gather_ieee. cbn [fst]. apply map2_ext_in.
    intros b l Hin.
    destruct (combine_seq_nth_error _ _ _ _ _ Hin) as [Hb Hcb].
    rewrite Nat.sub_0_r in Hcb.
    pose proof (in_combine_r _ _ _ _ Hin) as Hl.
    destruct (Hout l Hl) as (out & Hnth & -> & Hshape).
    pose proof (Hrange l Hl) as Hlr.
    pose proof (fl_onehot_sum_axis0 l s
                  (map (fun t : ftensor2 => nth b t []) (map fst outs)) 0)
      as E.
    rewrite !length_map in E. cbn zeta in E.
    assert (Hrows : Forall (fun e : list fl => List.length e = s)
                      (map (fun t : ftensor2 => nth b t []) (map fst outs))).
    { rewrite map_map. apply Forall_map.
      eapply Forall_impl; [|exact Hsh]. intros o (Hr & Hcls & _).
      apply rows_nth_length; [exact Hcls|]. cbn beta.
      unfold ftensor2, ftensor1 in *. lia. }
    assert (Hf : forall i, (i < List.length outs)%nat ->
              Z.of_nat (0 + i) <> l ->
              forallb is_finite
                (nth i (map (fun t : ftensor2 => nth b t [])
                            (map fst outs)) []) = true).
    { intros i Hi Hil.
      destruct (nth_error outs i) as [o|] eqn:Ho;
        [|apply nth_error_None in Ho; lia].
      erewrite nth_error_nth
        by (rewrite map_map, nth_error_map, Ho; reflexivity).
      apply (Hfin b l i o Hcb Ho). cbn in Hil. lia. }
    destruct (E Hrows Hf) as [_ Ein].
    unfold fsum_axis0.
    replace (map (fun _ => Fin 0) (hd [] _)) with (repeat (Fin 0) s).
    - etransitivity; [apply Ein; cbn; lia|]. rewrite Nat.sub_0_r.
      erewrite nth_error_nth; [reflexivity|].
      rewrite map_map, nth_error_map, Hnth. reflexivity.
    - destruct outs as [|o0 orest]; [congruence|].
      cbn [List.length map hd map2 seq].
      rewrite map_const_repeat, length_map.
      inversion Hrows; subst; try reflexivity; f_equal; congruence. }
  assert (Hld :
    map2 (fun b l =>
            fsum1 (map2 (fun v m => fl_mul v (Fin (IZR m)))
                        (map (fun t => nth b t (Fin 0)) (map snd outs))
                        (map (fun k => if (Z.of_nat k =? l)%Z then 1%Z else 0%Z)
                             (seq 0 (List.length outs)))))
         (seq 0 batch_size) c
    = snd (gather_ieee outs c batch_size)).
  { unfold gather_ieee. cbn [snd]. apply map2_ext_in.
    intros b l Hin.
    destruct (combine_seq_nth_error _ _ _ _ _ Hin) as [Hb Hcb].
    rewrite Nat.sub_0_r in Hcb.
    pose proof (in_combine_r _ _ _ _ Hin) as Hl.
    destruct (Hout l Hl) as (out & Hnth & -> & Hshape).
    pose proof (Hrange l Hl) as Hlr.
    pose proof (fl_onehot_sum1 l
                  (map (fun t : ftensor1 => nth b t (Fin 0)) (map snd outs)) 0)
      as E.
    rewrite !length_map in E. cbn zeta in E.
    assert (Hf : forall i, (i < List.length outs)%nat ->
              Z.of_nat (0 + i) <> l ->
              is_finite
                (nth i (map (fun t : ftensor1 => nth b t (Fin 0))
                            (map snd outs)) (Fin 0)) = true).
    { intros i Hi Hil.
      destruct (nth_error outs i) as [o|] eqn:Ho;
        [|apply nth_error_None in Ho; lia].
      erewrite nth_error_nth
        by (rewrite map_map, nth_error_map, Ho; reflexivity).
      apply (Hfin b l i o Hcb Ho). cbn in Hil. lia. }
    destruct (E Hf) as [_ Ein].
    etransitivity; [apply Ein; cbn; lia|]. rewrite Nat.sub_0_r.
    erewrite nth_error_nth; [reflexivity|].
    rewrite map_map, nth_error_map, Hnth. reflexivity. }
  rewrite Hes, Hld. rewrite reshape_rows_id.
  - cbn [rbind]. now destruct (gather_ieee outs c batch_size).
  - unfold gather_ieee. cbn [fst].
    rewrite map2_length; rewrite length_seq; auto.
  - unfold gather_ieee. cbn [fst]. apply Forall_map2.
    intros b l Hin.
    destruct (combine_seq_nth_error _ _ _ _ _ Hin) as [Hb _].
    pose proof (in_combine_r _ _ _ _ Hin) as Hl.
    destruct (Hout l Hl) as (out & _ & -> & (Hr & Hcls & _)).
    apply rows_nth_length; [exact Hcls|].
    unfold ftensor2, ftensor1 in *. lia.
Qed.

(** C3, amended. The three running maxima [best_r2], [best_mcc] and
    [best_sum] never decrease over a sequence of validation steps, and all
    the running-best attributes are 0 after construction. The paired values
    are not maxima: a step that replaces [best_r2] stores its own [mcc] in
    [mcc_at_best_r2], a step that replaces [best_mcc] stores its own [r2] in
    [r2_at_best_mcc], and otherwise they are kept. *)
Theorem running_maxima_never_decrease (args : Config) (s : SSA)
  (batches : list Batch) (batch : Batch) (batch_idx : nat) (st : State)
  (loss : R) (st' : State) :
  (SSA_init args = Ok s ->
   best s = {| best_r2 := 0; best_mcc := 0; best_sum := 0; best_sum_mcc := 0;
               best_sum_r2 := 0; r2_at_best_mcc := 0; mcc_at_best_r2 := 0 |})
  /\ maxima_le (best (self st))
               (best (self (snd (validation_epoch batches batch_idx st))))
  /\ maxima_le (best (self st))
               (best (self (snd (validation_step batch batch_idx st))))
  /\ (validation_step batch batch_idx st = (Ok loss, st') ->
      exists y mus,
        batch_y batch = Some y /\ encoded_mus (self st) batch = Ok mus
        /\ let r2 := r2_metric (self st) mus y in
           let mcc := mcc_metric (self st) mus y in
           mcc_at_best_r2 (best (self st'))
           = (if geb r2 (best_r2 (best (self st)))
              then mcc else mcc_at_best_r2 (best (self st)))
           /\ r2_at_best_mcc (best (self st'))
              = (if geb mcc (best_mcc (best (self st)))
                 then r2 else r2_at_best_mcc (best (self st)))).
Proof.
  split; [|split; [|split]].
  - intros Hs. now apply SSA_init_best in Hs.
  - apply validation_epoch_maxima.
  - apply validation_step_maxima.
  - intros Hv. apply validation_step_inv in Hv.
    destruct Hv as (y & mus & recon & kc & ks & Hy & Hm & _ & _ & Hself & _).
    exists y, mus. split; [exact Hy|]. split; [exact Hm|]. cbn zeta.
    rewrite Hself. cbn.
    destruct (update_best_r2 (r2_metric (self st) mus y)
                (mcc_metric (self st) mus y) (best (self st))) as [_ ->].
    destruct (update_best_mcc (r2_metric (self st) mus y)
                (mcc_metric (self st) mus y) (best (self st))) as [_ ->].
    split; reflexivity.
Qed.

(** C4. Ties favour the latest observation: in a validation step whose [r2]
    equals the current [best_r2], [best_r2] is replaced and [mcc_at_best_r2]
    becomes the [mcc] of the step; likewise for [mcc] and [best_mcc]; and
    when [mcc + r2] equals [best_sum], [best_sum_mcc] and [best_sum_r2] are
    overwritten with the values of the step. *)
Theorem running_best_ties_take_latest (batch : Batch) (batch_idx : nat)
  (st : State) (loss : R) (st' : State) (y mus : tensor2) :
  validation_step batch batch_idx st = (Ok loss, st') ->
  batch_y batch = Some y ->
  encoded_mus (self st) batch = Ok mus ->
  let r2 := r2_metric (self st) mus y in
  let mcc := mcc_metric (self st) mus y in
  (r2 = best_r2 (best (self st)) ->
   best_r2 (best (self st')) = r2 /\ mcc_at_best_r2 (best (self st')) = mcc)
  /\ (mcc = best_mcc (best (self st)) ->
      best_mcc (best (self st')) = mcc
      /\ r2_at_best_mcc (best (self st')) = r2)
  /\ (mcc + r2 = best_sum (best (self st)) ->
      best_sum (best (self st')) = mcc + r2
      /\ best_sum_mcc (best (self st')) = mcc
      /\ best_sum_r2 (best (self st')) = r2).
Proof.
  intros Hv Hy Hm. apply validation_step_inv in Hv.
  destruct Hv as (y' & mus' & recon & kc & ks & Hy' & Hm' & _ & _ & Hself & _).
  rewrite Hy in Hy'. rewrite Hm in Hm'.
  inversion Hy'; inversion Hm'; subst y' mus'. cbn zeta in *.
  rewrite Hself. cbn.
  destruct (update_best_r2 (r2_metric (self st) mus y)
              (mcc_metric (self st) mus y) (best (self st))) as [-> ->].
  destruct (update_best_mcc (r2_metric (self st) mus y)
              (mcc_metric (self st) mus y) (best (self st))) as [-> ->].
  destruct (update_best_sum (r2_metric (self st) mus y)
              (mcc_metric (self st) mus y) (best (self st))) as (-> & -> & ->).
  split; [|split]; intros <-; rewrite geb_refl; auto.
Qed.

(** C5. [reconstruction_loss] on a batch with zero rows raises the assertion
    error whatever the family, before any loss is computed, and so does a
    training or validation step on such a batch, leaving the module and the
    sink as they were; on a batch with at least one row the assertion
    passes. *)
Theorem zero_batch_fails_assertion :
  (forall x_recon dist,
      reconstruction_loss [] x_recon dist = Raise AssertionError)
  /\ (forall x x_recon dist,
         x <> [] -> reconstruction_loss x x_recon dist <> Raise AssertionError)
  /\ (forall batch batch_idx st,
         batch_x batch = [] ->
         ((0 < embedding_dim (cfg (self st)))%nat ->
          embeddings (self st) (batch_c batch) = []) ->
         training_step batch batch_idx st = (Raise AssertionError, st)
         /\ (batch_y batch <> None ->
             validation_step batch batch_idx st = (Raise AssertionError, st))).
Proof.
  split; [|split].
  - reflexivity.
  - intros x x_recon dist Hx. unfold reconstruction_loss.
    destruct x as [|r x]; [congruence|]. cbn [List.length Nat.eqb].
    repeat match goal with
           | |- context [String.eqb ?a ?b] => destruct (String.eqb a b)
           end; discriminate.
  - intros batch batch_idx st Hx Hemb.
    assert (Ht : elbo_terms (self st) batch = Raise AssertionError).
    { unfold elbo_terms, embed_input. rewrite Hx.
      destruct (Nat.ltb_spec 0 (embedding_dim (cfg (self st)))) as [Hpos|Hz].
      - rewrite (Hemb Hpos). cbn.
        now destruct (net _ _) as [[[x_recon mus] logvars] zs].
      - cbn. now destruct (net _ _) as [[[x_recon mus] logvars] zs]. }
    split.
    + rewrite training_step_eq, Ht. reflexivity.
    + intros Hy. rewrite validation_step_eq, Ht.
      destruct (batch_y batch); [reflexivity | congruence].
Qed.

(** C6, amended. [configure_optimizers] compares the lower-cased optimizer
    name: a name that lowers to [adam] gives an AdamW optimizer, one that
    lowers to [rmsprop] an RMSprop optimizer, and every other name raises
    [NotImplementedError]. *)
Theorem configure_optimizers_by_lowered_name (s : SSA) :
  (lower (optimizer (cfg s)) = "adam"%string ->
   configure_optimizers s = Ok ([AdamW (lr (cfg s)) (0.9, 0.999) 0.0001], []))
  /\ (lower (optimizer (cfg s)) = "rmsprop"%string ->
      configure_optimizers s = Ok ([RMSprop (lr (cfg s))], []))
  /\ (lower (optimizer (cfg s)) <> "adam"%string ->
      lower (optimizer (cfg s)) <> "rmsprop"%string ->
      configure_optimizers s = Raise NotImplementedError).
Proof.
  unfold configure_optimizers. split; [|split].
  - intros ->. reflexivity.
  - intros ->. reflexivity.
  - intros Ha Hr.
    destruct (String.eqb_spec (lower (optimizer (cfg s))) "adam");
      [congruence|].
    destruct (String.eqb_spec (lower (optimizer (cfg s))) "rmsprop");
      [congruence|]. reflexivity.
Qed.

(** C7. For a decoder family other than [bernoulli], [gaussian] and
    [sigmoid_gaussian], [reconstruction_loss] never returns a loss: on a
    batch with rows it raises [UnboundLocalError], [recon_loss] never having
    been bound. A step of a module configured with such a family returns no
    loss either. *)
Theorem unsupported_family_yields_no_loss (dist : string) :
  dist <> "bernoulli"%string ->
  dist <> "gaussian"%string ->
  dist <> "sigmoid_gaussian"%string ->
  (forall x x_recon,
      x <> [] -> reconstruction_loss x x_recon dist = Raise UnboundLocalError)
  /\ (forall x x_recon v, reconstruction_loss x x_recon dist <> Ok v)
  /\ (forall batch batch_idx st loss st',
         decoder_dist (cfg (self st)) = dist ->
         training_step batch batch_idx st <> (Ok loss, st')
         /\ validation_step batch batch_idx st <> (Ok loss, st')).
Proof.
  intros Hb Hg Hs.
  assert (Hrec : forall x x_recon,
            reconstruction_loss x x_recon dist
            = if Nat.eqb (List.length x) 0 then Raise AssertionError
              else Raise UnboundLocalError).
  { intros x x_recon. unfold reconstruction_loss.
    destruct (Nat.eqb (List.length x) 0); [reflexivity|].
    destruct (String.eqb_spec dist "bernoulli"); [congruence|].
    destruct (String.eqb_spec dist "gaussian"); [congruence|].
    destruct (String.eqb_spec dist "sigmoid_gaussian"); [congruence|].
    reflexivity. }
  assert (Hnone : forall x x_recon v, reconstruction_loss x x_recon dist <> Ok v).
  { intros x x_recon v. rewrite Hrec.
    destruct (Nat.eqb (List.length x) 0); discriminate. }
  assert (Hterms : forall s batch t,
            decoder_dist (cfg s) = dist -> elbo_terms s batch <> Ok t).
  { intros s batch t Hd. unfold elbo_terms.
    destruct (embed_input s (batch_x batch) (batch_c batch)) as [x|e];
      [|discriminate]. cbn [rbind].
    destruct (net s x) as [[[x_recon mus] logvars] zs]. rewrite Hd.
    destruct (reconstruction_loss x x_recon dist) as [v|e] eqn:Hv;
      [|discriminate]. now apply Hnone in Hv. }
  split; [|split].
  - intros x x_recon Hx. rewrite Hrec. destruct x; [congruence | reflexivity].
  - exact Hnone.
  - intros batch batch_idx st loss st' Hd. split.
    + rewrite training_step_eq.
      destruct (elbo_terms (self st) batch) as [[[recon kc] ks]|e] eqn:Ht;
        [|discriminate]. now apply Hterms in Ht.
    + intros Hv. apply validation_step_inv in Hv.
      destruct Hv as (y & mus & recon & kc & ks & _ & _ & Ht & _).
      now apply Hterms in Ht.
Qed.

(** C8. When the encoder returns [mus = 0] and [logvars = 0] on the content
    dimensions, the content KLD term of a step is 0: the posterior and the
    prior log-densities are those of the same standard normal at the same
    points. A step that computes its terms has a batch of non-zero size. *)
Theorem content_kld_zero_at_prior (s : SSA) (batch : Batch)
  (x x_recon mus logvars zs : tensor2) (recon kc ks : R) :
  embed_input s (batch_x batch) (batch_c batch) = Ok x ->
  net s x = (x_recon, mus, logvars, zs) ->
  cols_to (c_dim (cfg s)) mus = zeros_like (cols_to (c_dim (cfg s)) mus) ->
  cols_to (c_dim (cfg s)) logvars
  = zeros_like (cols_to (c_dim (cfg s)) logvars) ->
  elbo_terms s batch = Ok (recon, kc, ks) ->
  kc = 0 /\ batch_x batch <> [].
Proof.
  intros Hemb Hnet Hmu Hlv. unfold elbo_terms.
  rewrite Hemb. cbn [rbind]. rewrite Hnet.
  destruct (reconstruction_loss x x_recon _) as [r|e] eqn:Hrec;
    [|discriminate]. cbn [rbind].
  destruct (style_kld _ _ _ _ _ _ _ _) as [k|e]; [|discriminate].
  cbn [rbind]. intros Heq. inversion Heq; subst. split.
  - now apply content_kld_zero.
  - intros Hx. apply embed_input_rows in Hemb. rewrite Hx in Hemb.
    destruct x; [|discriminate]. discriminate.
Qed.

(** C9. The flag [hz_to_z] selects the direction of the R2 regression of a
    validation step: with [hz_to_z] false the step records
    [compute_r2(mus[:, :c_dim], y[:, :c_dim])], with [hz_to_z] true
    [compute_r2(y[:, :c_dim], mus[:, :c_dim])], in [self.val_r2] and under
    [val_r2] in the sink. *)
Theorem hz_to_z_selects_r2_direction (batch : Batch) (batch_idx : nat)
  (st : State) (loss : R) (st' : State) :
  validation_step batch batch_idx st = (Ok loss, st') ->
  exists y mus r2,
    batch_y batch = Some y
    /\ encoded_mus (self st) batch = Ok mus
    /\ val_r2 (self st') = Some r2
    /\ In ("val_r2"%string, r2) (sink st')
    /\ (hz_to_z (cfg (self st)) = false ->
        r2 = compute_r2 (cols_to (c_dim (cfg (self st))) mus)
                        (cols_to (c_dim (cfg (self st))) y))
    /\ (hz_to_z (cfg (self st)) = true ->
        r2 = compute_r2 (cols_to (c_dim (cfg (self st))) y)
                        (cols_to (c_dim (cfg (self st))) mus)).
Proof.
  intros Hv. apply validation_step_inv in Hv.
  destruct Hv as (y & mus & recon & kc & ks & Hy & Hm & _ & _ & Hself & Hsink).
  exists y, mus, (r2_metric (self st) mus y).
  split; [exact Hy|]. split; [exact Hm|]. cbn zeta in *.
  split; [now rewrite Hself|]. split.
  - rewrite Hsink. apply in_or_app. right. cbn. auto.
  - unfold r2_metric. split; intros ->; reflexivity.
Qed.

(** C10. With warm start, a module that [SSA.__init__] builds has [nclass]
    flows and each of them carries the parameters read from the one
    checkpoint [spline_pth]; any two flows of the bank thus start with the
    same parameters. *)
Theorem warm_start_shares_checkpoint (args : Config) (s : SSA) :
  use_warm_start args = true ->
  SSA_init args = Ok s ->
  List.length (spline_list s) = nclass args
  /\ (forall spline, In spline (spline_list s) ->
        torch_load_path (spline_pth args) = Ok (flow_params spline))
  /\ (forall f g, In f (spline_list s) -> In g (spline_list s) ->
        flow_params f = flow_params g).
Proof.
  intros Hwarm Hs. unfold SSA_init in Hs. apply rbind_ok in Hs.
  destruct Hs as (splines & Hsp & Hs). inversion Hs; subst s; clear Hs.
  cbn [spline_list]. apply rmapM_ok in Hsp.
  assert (Hall : forall spline, In spline splines ->
            torch_load_path (spline_pth args) = Ok (flow_params spline)).
  { intros spline Hin.
    assert (Hex : exists i, init_spline args i = Ok spline).
    { clear -Hsp Hin. induction Hsp as [|i f l fs Hf Hrest IH];
        [contradiction|]. destruct Hin as [<-|Hin]; eauto. }
    destruct Hex as (i & Hi). unfold init_spline in Hi. rewrite Hwarm in Hi.
    apply rbind_ok in Hi. destruct Hi as (sd & Hload & Hi).
    unfold load_state_dict in Hi.
    destruct (state_dict_matches _ sd); [|discriminate].
    inversion Hi. cbn. exact Hload. }
  split; [|split].
  - apply Forall2_length in Hsp. now rewrite length_seq in Hsp.
  - exact Hall.
  - intros f g Hf Hg. apply Hall in Hf. apply Hall in Hg.
    rewrite Hf in Hg. now inversion Hg.
Qed.

End Properties.

(** * Examples on the small instance *)

Lemma toy_well_formed (b : RunningBest) (v : option R) (batch : Batch) :
  batch_x batch <> [] ->
  List.length (batch_c batch) = List.length (batch_x batch) ->
  forallb (label_in_range 2) (batch_c batch) = true ->
  Forall (fun row => List.length row = 2%nat) (batch_x batch) ->
  @step_well_formed Toy.backend (Toy.module_at b v) batch.
Proof.
  intros Hx Hc Hlab Hrows. unfold step_well_formed.
  split; [exact Hx|]. split; [exact Hc|]. split; [exact Hlab|].
  split; [cbn; auto|]. split; [reflexivity|].
  exists (batch_x batch). split; [reflexivity|]. cbn.
  split; [reflexivity|].
  assert (Hsh : forall p : R,
             @flow_shaped Toy.backend 1 (cols_from 1 (batch_x batch))
               (@Build_NormalizingFlow Toy.backend p)).
  { intros p. unfold flow_shaped. cbn. rewrite !length_map.
    split; [reflexivity|]. split; [|reflexivity].
    unfold cols_from. rewrite map_map. apply Forall_map.
    eapply Forall_impl; [|exact Hrows]. intros row Hrow. cbn beta.
    rewrite length_map, length_skipn, Hrow. reflexivity. }
  repeat constructor; apply Hsh.
Qed.

Lemma toy_batch_of_well_formed (r2 mcc : R) (b : RunningBest) (v : option R) :
  @step_well_formed Toy.backend (Toy.module_at b v) (Toy.batch_of r2 mcc).
Proof.
  apply toy_well_formed; cbn; try reflexivity; try discriminate.
  repeat constructor.
Qed.

Lemma toy_batch3_well_formed :
  @step_well_formed Toy.backend (self Toy.start) Toy.batch3.
Proof.
  apply toy_well_formed; cbn; try reflexivity; try discriminate.
  repeat constructor.
Qed.

(** A validation step of the toy module on [batch_of r2 mcc] returns and
    leaves the running bests [update_best r2 mcc b]. *)
Lemma toy_validation_step (r2 mcc : R) (b : RunningBest) (v : option R)
  (batch_idx : nat) (sk : list (string * R)) :
  exists loss st',
    @validation_step Toy.backend (Toy.batch_of r2 mcc) batch_idx
                     {| self := Toy.module_at b v; sink := sk |}
    = (Ok loss, st')
    /\ self st' = Toy.module_at (update_best r2 mcc b) (Some r2).
Proof.
  destruct (@validation_step_returns Toy.backend (Toy.batch_of r2 mcc)
              batch_idx {| self := Toy.module_at b v; sink := sk |})
    as (loss & st' & Hv).
  - apply toy_batch_of_well_formed.
  - discriminate.
  - exists loss, st'. split; [exact Hv|].
    apply validation_step_inv in Hv.
    destruct Hv as (y & mus & recon & kc & ks & Hy & Hm & _ & _ & Hself & _).
    cbn in Hy, Hm. inversion Hy; subst y. inversion Hm; subst mus.
    cbn zeta in Hself. rewrite Hself. reflexivity.
Qed.

(** C1 on the toy module: the step on the three-row batch returns, and the
    loss is the weighted sum of its three terms. *)
Lemma elbo_loss_is_weighted_sum_witness :
  @step_well_formed Toy.backend (self Toy.start) Toy.batch3
  /\ exists loss st' recon kc ks,
       @training_step Toy.backend Toy.batch3 0 Toy.start = (Ok loss, st')
       /\ @elbo_terms Toy.backend (self Toy.start) Toy.batch3
          = Ok (recon, kc, ks)
       /\ loss = recon + 0.0025 * kc + 0.001 * ks.
Proof.
  split; [exact toy_batch3_well_formed|].
  destruct (@elbo_loss_is_weighted_sum Toy.backend Toy.batch3 0 Toy.start)
    as (Hsum & _ & Hret).
  destruct (Hret toy_batch3_well_formed) as ((loss & st' & Ht) & _).
  destruct (Hsum loss st' (or_introl Ht)) as (recon & kc & ks & He & Hl).
  exists loss, st', recon, kc, ks. auto.
Defined.

Lemma fl_mul_inf_zero : fl_mul PInf (Fin 0) = NaN /\ fl_mul NInf (Fin 0) = NaN.
Proof.
  cbn. unfold fl_scale_inf.
  destruct (Rlt_dec 0 0); [lra|]. auto.
Qed.

(** C2 as stated fails: with two flows and one row of label 0, flow 0
    returns the value 1 and the log-determinant 0 on the row, and flow 1,
    which the label does not select, returns [inf] and [-inf]. The labels
    are in range and the shapes are right, yet the masked sum gives [nan] for
    both, where the gather gives the outputs of flow 0. *)
Lemma masked_sum_keeps_unselected_inf :
  forallb (label_in_range 2) [0%Z] = true
  /\ masked_select_ieee [([[Fin 1]], [Fin 0]); ([[PInf]], [NInf])] 2 1 1 [0%Z]
     = Ok ([[NaN]], [NaN])
  /\ gather_ieee [([[Fin 1]], [Fin 0]); ([[PInf]], [NInf])] [0%Z] 1
     = ([[Fin 1]], [Fin 0])
  /\ masked_select_ieee [([[Fin 1]], [Fin 0]); ([[PInf]], [NInf])] 2 1 1 [0%Z]
     <> Ok (gather_ieee [([[Fin 1]], [Fin 0]); ([[PInf]], [NInf])] [0%Z] 1).
Proof.
  destruct fl_mul_inf_zero as [Hp Hn].
  assert (Hsel : masked_select_ieee
                   [([[Fin 1]], [Fin 0]); ([[PInf]], [NInf])] 2 1 1 [0%Z]
                 = Ok ([[NaN]], [NaN])).
  { unfold masked_select_ieee, masked_sum3_ieee, masked_sum2_ieee.
    cbn -[fl_mul fl_add]. rewrite Hp, Hn. reflexivity. }
  split; [reflexivity|]. split; [exact Hsel|]. split; [reflexivity|].
  rewrite Hsel. discriminate.
Qed.

(** C2, amended, on the same two flows with the infinities moved to flow 0,
    the flow the label selects: the other flow is finite on the row, and the
    masked sum returns the outputs of flow 0, infinite as they are. *)
Lemma masked_selection_is_row_gather_when_finite_witness :
  masked_select_ieee [([[PInf]], [NInf]); ([[Fin 2]], [Fin 3])] 2 1 1 [0%Z]
  = Ok ([[PInf]], [NInf]).
Proof.
  rewrite (masked_selection_is_row_gather_when_finite
             [([[PInf]], [NInf]); ([[Fin 2]], [Fin 3])] 2 1 1 [0%Z]).
  - reflexivity.
  - reflexivity.
  - repeat constructor.
  - reflexivity.
  - reflexivity.
  - discriminate.
  - intros b l k out Hc Ho Hne.
    destruct b as [|b]; [|destruct b; discriminate].
    inversion Hc; subst l.
    destruct k as [|[|k]]; [cbn in Hne; congruence| |destruct k; discriminate].
    inversion Ho; subst out. split; reflexivity.
Defined.

(** C3 as stated fails: after a first validation step with [r2 = 0.5] and
    [mcc = 0.9], a second one with [r2 = 0.6] and [mcc = 0.1] replaces
    [best_r2] and takes [mcc_at_best_r2] from 0.9 down to 0.1. *)
Lemma paired_record_decreases :
  exists l1 st1 l2 st2,
    @validation_step Toy.backend (Toy.batch_of 0.5 0.9) 0 Toy.start
    = (Ok l1, st1)
    /\ @validation_step Toy.backend (Toy.batch_of 0.6 0.1) 1 st1
       = (Ok l2, st2)
    /\ mcc_at_best_r2 (best (self st1)) = 0.9
    /\ mcc_at_best_r2 (best (self st2)) = 0.1
    /\ mcc_at_best_r2 (best (self st2)) < mcc_at_best_r2 (best (self st1)).
Proof.
  destruct (toy_validation_step 0.5 0.9 init_best None 0 [])
    as (l1 & [s1 sk1] & H1 & Hs1).
  cbn [self] in Hs1. subst s1.
  destruct (toy_validation_step 0.6 0.1 (update_best 0.5 0.9 init_best)
              (Some 0.5) 1 sk1) as (l2 & st2 & H2 & Hs2).
  assert (Hg1 : geb 0.5 0 = true) by (apply geb_true; lra).
  assert (Hg2 : geb 0.6 0.5 = true) by (apply geb_true; lra).
  assert (Hb1 : best_r2 (update_best 0.5 0.9 init_best) = 0.5
                /\ mcc_at_best_r2 (update_best 0.5 0.9 init_best) = 0.9).
  { destruct (update_best_r2 0.5 0.9 init_best) as [-> ->].
    cbn [init_best best_r2 mcc_at_best_r2]. rewrite Hg1. auto. }
  destruct Hb1 as [Hr1 Hm1].
  assert (Hm2 : mcc_at_best_r2
                  (update_best 0.6 0.1 (update_best 0.5 0.9 init_best)) = 0.1).
  { destruct (update_best_r2 0.6 0.1 (update_best 0.5 0.9 init_best))
      as [_ ->]. rewrite Hr1, Hg2. reflexivity. }
  eexists l1, _, l2, st2.
  split; [exact H1|]. split; [exact H2|].
  rewrite Hs2. cbn [self Toy.module_at best]. rewrite Hm1, Hm2.
  repeat split; lra.
Qed.

(** C3, amended, on the toy module: it is built with all records at 0, and
    the maxima do not decrease over the two steps above. *)
Lemma running_maxima_never_decrease_witness :
  @SSA_init Toy.backend (Toy.args "adam" false)
  = Ok (Toy.module "adam" false)
  /\ best (Toy.module "adam" false) = init_best
  /\ maxima_le
       (best (self Toy.start))
       (best (self (snd (@validation_epoch Toy.backend
                           [Toy.batch_of 0.5 0.9; Toy.batch_of 0.6 0.1] 0
                           Toy.start))))
  /\ exists loss st',
       @validation_step Toy.backend (Toy.batch_of 0.5 0.9) 0 Toy.start
       = (Ok loss, st')
       /\ exists y mus,
            batch_y (Toy.batch_of 0.5 0.9) = Some y
            /\ @encoded_mus Toy.backend (self Toy.start) (Toy.batch_of 0.5 0.9)
               = Ok mus
            /\ mcc_at_best_r2 (best (self st'))
               = (if geb (@r2_metric Toy.backend (self Toy.start) mus y)
                         (best_r2 (best (self Toy.start)))
                  then @mcc_metric Toy.backend (self Toy.start) mus y
                  else mcc_at_best_r2 (best (self Toy.start))).
Proof.
  destruct (toy_validation_step 0.5 0.9 init_best None 0 [])
    as (loss & st' & Hv & _).
  destruct (@running_maxima_never_decrease Toy.backend
              (Toy.args "adam" false) (Toy.module "adam" false)
              [Toy.batch_of 0.5 0.9; Toy.batch_of 0.6 0.1]
              (Toy.batch_of 0.5 0.9) 0 Toy.start loss st')
    as (Hinit & Hepoch & _ & Hpair).
  split; [reflexivity|]. split; [exact (Hinit eq_refl)|].
  split; [exact Hepoch|].
  exists loss, st'. split; [exact Hv|].
  destruct (Hpair Hv) as (y & mus & Hy & Hm & Hmcc & _).
  exists y, mus. auto.
Defined.

(** C4 on the toy module: the bests stand at [r2 = 0.5], [mcc = 0.9]; a step
    with the same [r2 = 0.5] and [mcc = 0.1] keeps [best_r2] and overwrites
    [mcc_at_best_r2] with 0.1. *)
Lemma running_best_ties_take_latest_witness :
  exists loss st',
    @validation_step Toy.backend (Toy.batch_of 0.5 0.1) 1
                     (Toy.state_at Toy.seen (Some 0.5)) = (Ok loss, st')
    /\ best_r2 (best (self st')) = 0.5
    /\ mcc_at_best_r2 (best (self st')) = 0.1.
Proof.
  destruct (toy_validation_step 0.5 0.1 Toy.seen (Some 0.5) 1 [])
    as (loss & st' & Hv & _).
  exists loss, st'. split; [exact Hv|].
  destruct (@running_best_ties_take_latest Toy.backend (Toy.batch_of 0.5 0.1)
              1 (Toy.state_at Toy.seen (Some 0.5)) loss st'
              [[0.5; 0.1]] [[0; 3]] Hv eq_refl eq_refl) as (Hr2 & _ & _).
  exact (Hr2 eq_refl).
Defined.

(** C5 on the toy module: the empty batch stops both steps at the assertion
    and a one-row batch passes it. *)
Lemma zero_batch_fails_assertion_witness :
  @training_step Toy.backend Toy.empty_batch 0 Toy.start
  = (Raise AssertionError, Toy.start)
  /\ @validation_step Toy.backend Toy.empty_batch 0 Toy.start
     = (Raise AssertionError, Toy.start)
  /\ @reconstruction_loss Toy.backend [[1; 2]] [[1; 2]] "gaussian"
     <> Raise AssertionError.
Proof.
  destruct (@zero_batch_fails_assertion Toy.backend) as (_ & Hpass & Hstep).
  destruct (Hstep Toy.empty_batch 0%nat Toy.start eq_refl (fun _ => eq_refl))
    as (Ht & Hv).
  split; [exact Ht|]. split.
  - apply Hv. discriminate.
  - apply Hpass. discriminate.
Defined.

(** C6 as stated fails: [Adam] is a name other than [adam] and [rmsprop],
    and [configure_optimizers] returns an AdamW optimizer for it. *)
Lemma optimizer_name_is_lowered_first :
  "Adam"%string <> "adam"%string
  /\ "Adam"%string <> "rmsprop"%string
  /\ @configure_optimizers Toy.backend (Toy.module "Adam" false)
     = Ok ([AdamW 0.0001 (0.9, 0.999) 0.0001], [])
  /\ @configure_optimizers Toy.backend (Toy.module "Adam" false)
     <> Raise NotImplementedError.
Proof.
  split; [discriminate|]. split; [discriminate|].
  split; [reflexivity | discriminate].
Qed.

(** C6, amended, on the toy module: [RMSProp] lowers to [rmsprop] and gives
    an RMSprop optimizer; [sgd] raises. *)
Lemma configure_optimizers_by_lowered_name_witness :
  @configure_optimizers Toy.backend (Toy.module "RMSProp" false)
  = Ok ([RMSprop 0.0001], [])
  /\ @configure_optimizers Toy.backend (Toy.module "sgd" false)
     = Raise NotImplementedError.
Proof.
  split.
  - apply (@configure_optimizers_by_lowered_name Toy.backend
             (Toy.module "RMSProp" false)). reflexivity.
  - apply (@configure_optimizers_by_lowered_name Toy.backend
             (Toy.module "sgd" false)); discriminate.
Defined.

(** C7 on the family [poisson]. *)
Lemma unsupported_family_yields_no_loss_witness :
  @reconstruction_loss Toy.backend [[1; 2]] [[1; 2]] "poisson"
  = Raise UnboundLocalError.
Proof.
  apply (@unsupported_family_yields_no_loss Toy.backend "poisson");
    discriminate.
Defined.

(** C8 on the toy module, whose encoder returns the input as means and zero
    log-variances: the content column of the three-row batch is zero and so
    is the content KLD. *)
Lemma content_kld_zero_at_prior_witness :
  exists recon kc ks,
    @elbo_terms Toy.backend (self Toy.start) Toy.batch3 = Ok (recon, kc, ks)
    /\ kc = 0.
Proof.
  destruct (@elbo_terms_defined Toy.backend (self Toy.start) Toy.batch3
              toy_batch3_well_formed) as (recon & kc & ks & Ht).
  exists recon, kc, ks. split; [exact Ht|].
  apply (@content_kld_zero_at_prior Toy.backend (self Toy.start) Toy.batch3
           (batch_x Toy.batch3) (batch_x Toy.batch3) (batch_x Toy.batch3)
           (zeros_like (batch_x Toy.batch3)) (batch_x Toy.batch3)
           recon kc ks); try reflexivity. exact Ht.
Defined.

(** C9 on the toy module, whose [hz_to_z] is true: the step records
    [compute_r2(y[:, :1], mus[:, :1])]. *)
Lemma hz_to_z_selects_r2_direction_witness :
  exists loss st' y mus,
    @validation_step Toy.backend (Toy.batch_of 0.5 0.9) 0 Toy.start
    = (Ok loss, st')
    /\ batch_y (Toy.batch_of 0.5 0.9) = Some y
    /\ @encoded_mus Toy.backend (self Toy.start) (Toy.batch_of 0.5 0.9) = Ok mus
    /\ val_r2 (self st')
       = Some (@compute_r2 Toy.backend (cols_to 1 y) (cols_to 1 mus)).
Proof.
  destruct (toy_validation_step 0.5 0.9 init_best None 0 [])
    as (loss & st' & Hv & _).
  destruct (@hz_to_z_selects_r2_direction Toy.backend (Toy.batch_of 0.5 0.9)
              0 Toy.start loss st' Hv)
    as (y & mus & r2 & Hy & Hm & Hval & _ & _ & Htrue).
  exists loss, st', y, mus. rewrite Hval, (Htrue eq_refl). auto.
Defined.

(** C10 on the toy module built with warm start: both flows carry the
    parameters of the checkpoint. *)
Lemma warm_start_shares_checkpoint_witness :
  @SSA_init Toy.backend (Toy.args "adam" true) = Ok (Toy.module "adam" true)
  /\ List.length (spline_list (Toy.module "adam" true)) = 2%nat
  /\ forall f g,
       In f (spline_list (Toy.module "adam" true)) ->
       In g (spline_list (Toy.module "adam" true)) ->
       flow_params f = flow_params g.
Proof.
  split; [reflexivity|].
  destruct (@warm_start_shares_checkpoint Toy.backend (Toy.args "adam" true)
              (Toy.module "adam" true) eq_refl eq_refl) as (Hlen & _ & Hsame).
  split; [exact Hlen | exact Hsame].
Defined.

(** * Further properties of the module *)

Section MoreProperties.
Context `{Backend}.

(** ** Effects of the steps *)

Lemma elbo_terms_ignores_y (s : SSA) (x : tensor2) (c : list Z)
  (y y' : option tensor2) :
  elbo_terms s {| batch_x := x; batch_c := c; batch_y := y |}
  = elbo_terms s {| batch_x := x; batch_c := c; batch_y := y' |}.
Proof. reflexivity. Qed.

Lemma training_step_keeps_self (batch : Batch) (batch_idx : nat)
  (st : State) :
  self (snd (training_step batch batch_idx st)) = self st.
Proof.
  rewrite training_step_eq.
  now destruct (elbo_terms (self st) batch) as [[[recon kc] ks]|e0].
Qed.

(** X1. A step that raises leaves the module and the sink as they were:
    every [self.log] and every assignment comes after the last operation that
    can raise. A training step never changes the module; a validation step
    changes only the running bests and [val_r2]. *)
Theorem steps_raise_without_effect (batch : Batch) (batch_idx : nat)
  (st : State) :
  (forall e st', training_step batch batch_idx st = (Raise e, st') -> st' = st)
  /\ (forall e st',
         validation_step batch batch_idx st = (Raise e, st') -> st' = st)
  /\ self (snd (training_step batch batch_idx st)) = self st
  /\ (let s' := self (snd (validation_step batch batch_idx st)) in
      cfg s' = cfg (self st) /\ net s' = net (self st)
      /\ embeddings s' = embeddings (self st)
      /\ spline_list s' = spline_list (self st)).
Proof.
  split; [|split; [|split]].
  - intros e st'. rewrite training_step_eq.
    destruct (elbo_terms (self st) batch) as [[[recon kc] ks]|e0];
      [discriminate|]. intros Heq. now inversion Heq.
  - intros e st'. rewrite validation_step_eq.
    destruct (batch_y batch) as [y|]; [|intros Heq; now inversion Heq].
    destruct (elbo_terms (self st) batch) as [[[recon kc] ks]|e0];
      [|intros Heq; now inversion Heq].
    destruct (encoded_mus (self st) batch) as [mus|e0];
      [discriminate | intros Heq; now inversion Heq].
  - apply training_step_keeps_self.
  - cbn zeta. rewrite validation_step_eq.
    destruct (batch_y batch) as [y|]; [|now repeat split].
    destruct (elbo_terms (self st) batch) as [[[recon kc] ks]|e0];
      [|now repeat split].
    destruct (encoded_mus (self st) batch) as [mus|e0]; now repeat split.
Qed.

(** X3. A validation step on a batch without [y] raises [KeyError] before
    anything else, whatever the rows, the labels and the decoder family, and
    changes nothing; a training step never reads [y]. *)
Theorem validation_needs_y (x : tensor2) (c : list Z) (y : option tensor2)
  (batch_idx : nat) (st : State) :
  validation_step {| batch_x := x; batch_c := c; batch_y := None |}
                  batch_idx st = (Raise KeyError, st)
  /\ training_step {| batch_x := x; batch_c := c; batch_y := None |}
                   batch_idx st
     = training_step {| batch_x := x; batch_c := c; batch_y := y |}
                     batch_idx st.
Proof.
  split.
  - rewrite validation_step_eq. reflexivity.
  - rewrite !training_step_eq.
    now rewrite (elbo_terms_ignores_y (self st) x c None y).
Qed.

(** X4. With the embedding disabled, a label outside [0, nclass) stops both
    steps: on a batch with rows and a supported decoder family, once the
    encoder and the reconstruction loss have returned, [F.one_hot] raises
    before any flow runs, and nothing is logged. *)
Theorem label_out_of_range_raises (batch : Batch) (batch_idx : nat)
  (st : State) :
  embedding_dim (cfg (self st)) = 0%nat ->
  batch_x batch <> [] ->
  In (decoder_dist (cfg (self st)))
     ["bernoulli"; "gaussian"; "sigmoid_gaussian"]%string ->
  forallb (label_in_range (nclass (cfg (self st)))) (batch_c batch) = false ->
  training_step batch batch_idx st = (Raise TorchError, st)
  /\ (batch_y batch <> None ->
      validation_step batch batch_idx st = (Raise TorchError, st)).
Proof.
  intros Hoff Hx Hd Hlab.
  assert (Ht : elbo_terms (self st) batch = Raise TorchError).
  { unfold elbo_terms, embed_input. rewrite Hoff. cbn [Nat.ltb Nat.leb rbind].
    destruct (net (self st) (batch_x batch)) as [[[x_recon mus] logvars] zs].
    destruct (reconstruction_loss_supported (batch_x batch) x_recon
                (decoder_dist (cfg (self st)))) as (recon & ->); auto.
    cbn [rbind]. unfold style_kld, masked_flow_select, F_one_hot.
    rewrite Hlab. reflexivity. }
  split.
  - rewrite training_step_eq, Ht. reflexivity.
  - intros Hy. rewrite validation_step_eq, Ht.
    destruct (batch_y batch); [reflexivity | congruence].
Qed.

(** X5. A validation step that returns appends twelve entries to the sink,
    under these names in this order; the loss and the metric come third and
    second, and the six entries named after running bests carry the values
    the module holds after the step. [best_sum] itself is never logged. *)
Theorem validation_step_log_entries (batch : Batch) (batch_idx : nat)
  (st : State) (loss : R) (st' : State) :
  validation_step batch batch_idx st = (Ok loss, st') ->
  exists entries,
    sink st' = sink st ++ entries
    /\ map fst entries
       = ["val_mcc"; "val_r2"; "val_elbo_loss"; "val_recon_loss";
          "val_kld_content"; "val_kld_style"; "best_r2"; "mcc_at_best_r2";
          "best_mcc"; "r2_at_best_mcc"; "best_sum_mcc"; "best_sum_r2"]%string
    /\ nth_error (map snd entries) 2 = Some loss
    /\ nth_error (map snd entries) 1 = val_r2 (self st')
    /\ skipn 6 (map snd entries)
       = [best_r2 (best (self st')); mcc_at_best_r2 (best (self st'));
          best_mcc (best (self st')); r2_at_best_mcc (best (self st'));
          best_sum_mcc (best (self st')); best_sum_r2 (best (self st'))]
    /\ ~ In "best_sum"%string (map fst entries).
Proof.
  intros Hv. apply validation_step_inv in Hv.
  destruct Hv as (y & mus & recon & kc & ks & _ & _ & _ & _ & Hself & Hsink).
  cbn zeta in *. eexists. split; [exact Hsink|].
  rewrite Hself. cbn.
  repeat split; try reflexivity.
  intros Hin. repeat (destruct Hin as [Hin|Hin]; [discriminate|]).
  exact Hin.
Qed.
(** ** Invariants of the running bests *)

Lemma geb_false (a b : R) : geb a b = false <-> a < b.
Proof.
  unfold geb. destruct (Rge_dec a b); split; intros; try discriminate;
    try reflexivity; lra.
Qed.

Lemma update_best_sum_split (r2 mcc : R) (b : RunningBest) :
  sum_split b -> sum_split (update_best r2 mcc b).
Proof.
  unfold sum_split. intros Hb.
  destruct (update_best_sum r2 mcc b) as (-> & -> & ->).
  destruct (geb (mcc + r2) (best_sum b)); [reflexivity | exact Hb].
Qed.

Lemma update_best_ordered (r2 mcc : R) (b : RunningBest) :
  records_ordered b -> records_ordered (update_best r2 mcc b).
Proof.
  unfold records_ordered. intros Hb.
  destruct (update_best_r2 r2 mcc b) as [-> ->].
  destruct (update_best_mcc r2 mcc b) as [-> ->].
  destruct (update_best_sum r2 mcc b) as (-> & -> & ->).
  destruct (geb r2 (best_r2 b)) eqn:G1;
    [apply geb_true in G1 | apply geb_false in G1];
    (destruct (geb mcc (best_mcc b)) eqn:G2;
     [apply geb_true in G2 | apply geb_false in G2]);
    (destruct (geb (mcc + r2) (best_sum b)) eqn:G3;
     [apply geb_true in G3 | apply geb_false in G3]);
    repeat split; lra.
Qed.

(** The running bests after a validation step, whatever its outcome. *)
Lemma validation_step_best (batch : Batch) (batch_idx : nat) (st : State) :
  best (self (snd (validation_step batch batch_idx st))) = best (self st)
  \/ exists r2 mcc,
       best (self (snd (validation_step batch batch_idx st)))
       = update_best r2 mcc (best (self st)).
Proof.
  rewrite validation_step_eq.
  destruct (batch_y batch) as [y|]; [|now left].
  destruct (elbo_terms (self st) batch) as [[[recon kc] ks]|e]; [|now left].
  destruct (encoded_mus (self st) batch) as [mus|e]; [|now left].
  right. cbn. eauto.
Qed.

Lemma validation_epoch_keeps (P : RunningBest -> Prop) :
  (forall r2 mcc b, P b -> P (update_best r2 mcc b)) ->
  forall batches batch_idx st,
    P (best (self st)) ->
    P (best (self (snd (validation_epoch batches batch_idx st)))).
Proof.
  intros Hup batches. induction batches as [|batch rest IH];
    intros batch_idx st HP; cbn [validation_epoch]; [exact HP|].
  unfold bind.
  assert (Hstep : P (best (self (snd (validation_step batch batch_idx st))))).
  { destruct (validation_step_best batch batch_idx st) as [->|(r2 & mcc & ->)];
      auto. }
  destruct (validation_step batch batch_idx st) as [[loss|e] st1]; cbn in *.
  - now apply IH.
  - exact Hstep.
Qed.

(** X6. [best_sum] is always the sum of the two values recorded with it:
    [best_sum = best_sum_mcc + best_sum_r2] holds after construction and
    after every training step and every sequence of validation steps,
    whether they return or raise. *)
Theorem best_sum_is_sum_of_its_parts (args : Config) (s : SSA)
  (batches : list Batch) (batch : Batch) (batch_idx : nat) (st : State) :
  (SSA_init args = Ok s -> sum_split (best s))
  /\ (sum_split (best (self st)) ->
      sum_split (best (self (snd (training_step batch batch_idx st))))
      /\ sum_split
           (best (self (snd (validation_epoch batches batch_idx st))))).
Proof.
  split.
  - intros Hs. apply SSA_init_best in Hs. destruct Hs as [-> _].
    unfold sum_split. cbn. lra.
  - intros Hb. split.
    + now rewrite training_step_keeps_self.
    + apply validation_epoch_keeps; [|exact Hb].
      intros r2 mcc b. apply update_best_sum_split.
Qed.

(** X7. The records keep their order: the three maxima are never negative
    (a negative metric is never recorded), each paired value is at most the
    maximum of its own metric, and
    [best_r2 + mcc_at_best_r2 <= best_sum] and
    [best_mcc + r2_at_best_mcc <= best_sum]. This holds after construction
    and is kept by every training step and every sequence of validation
    steps. *)
Theorem running_records_stay_ordered (args : Config) (s : SSA)
  (batches : list Batch) (batch : Batch) (batch_idx : nat) (st : State) :
  (SSA_init args = Ok s -> records_ordered (best s))
  /\ (records_ordered (best (self st)) ->
      records_ordered (best (self (snd (training_step batch batch_idx st))))
      /\ records_ordered
           (best (self (snd (validation_epoch batches batch_idx st))))).
Proof.
  split.
  - intros Hs. apply SSA_init_best in Hs. destruct Hs as [-> _].
    unfold records_ordered. cbn. repeat split; lra.
  - intros Hb. split.
    + now rewrite training_step_keeps_self.
    + apply validation_epoch_keeps; [|exact Hb].
      intros r2 mcc b. apply update_best_ordered.
Qed.

(** ** The running maxima against a linear scan *)

Lemma step_metrics_frame (s : SSA) (f : RunningBest -> RunningBest) (v : R)
  (batch : Batch) :
  step_metrics (set_val_r2 v (with_best f s)) batch = step_metrics s batch.
Proof. reflexivity. Qed.

Lemma update_best_maxes (r2 mcc : R) (b : RunningBest) :
  best_r2 (update_best r2 mcc b) = Rmax (best_r2 b) r2
  /\ best_mcc (update_best r2 mcc b) = Rmax (best_mcc b) mcc
  /\ best_sum (update_best r2 mcc b) = Rmax (best_sum b) (mcc + r2).
Proof.
  destruct (update_best_r2 r2 mcc b) as [-> _].
  destruct (update_best_mcc r2 mcc b) as [-> _].
  destruct (update_best_sum r2 mcc b) as (-> & _).
  repeat split.
  - destruct (geb r2 (best_r2 b)) eqn:G;
      [apply geb_true in G | apply geb_false in G]; unfold Rmax;
      destruct (Rle_dec (best_r2 b) r2); lra.
  - destruct (geb mcc (best_mcc b)) eqn:G;
      [apply geb_true in G | apply geb_false in G]; unfold Rmax;
      destruct (Rle_dec (best_mcc b) mcc); lra.
  - destruct (geb (mcc + r2) (best_sum b)) eqn:G;
      [apply geb_true in G | apply geb_false in G]; unfold Rmax;
      destruct (Rle_dec (best_sum b) (mcc + r2)); lra.
Qed.

Lemma observe_fold_maxes (pairs : list (R * R)) (b : RunningBest) :
  best_r2 (fold_left observe pairs b)
  = fold_left Rmax (map fst pairs) (best_r2 b)
  /\ best_mcc (fold_left observe pairs b)
     = fold_left Rmax (map snd pairs) (best_mcc b)
  /\ best_sum (fold_left observe pairs b)
     = fold_left Rmax (map (fun p => snd p + fst p) pairs) (best_sum b).
Proof.
  revert b. induction pairs as [|[r2 mcc] pairs IH]; intros b;
    cbn [fold_left map]; [auto|].
  destruct (IH (observe b (r2, mcc))) as (-> & -> & ->).
  unfold observe. cbn [fst snd].
  destruct (update_best_maxes r2 mcc b) as (-> & -> & ->). auto.
Qed.

Lemma validation_epoch_folds (batches : list Batch) (batch_idx : nat)
  (st st' : State) :
  validation_epoch batches batch_idx st = (Ok tt, st') ->
  exists pairs,
    Forall2 (fun batch p => step_metrics (self st) batch = Some p)
            batches pairs
    /\ best (self st') = fold_left observe pairs (best (self st)).
Proof.
  revert batch_idx st. induction batches as [|batch rest IH];
    intros batch_idx st; cbn [validation_epoch].
  - intros Heq. inversion Heq. exists []. split; [constructor | reflexivity].
  - unfold bind.
    destruct (validation_step batch batch_idx st) as [[loss|e] st1] eqn:Hv;
      [|discriminate].
    intros Hrest. apply validation_step_inv in Hv.
    destruct Hv as (y & mus & recon & kc & ks & Hy & Hm & _ & _ & Hself & _).
    cbn zeta in Hself.
    destruct (IH _ _ Hrest) as (pairs & Hpairs & Hbest).
    exists ((r2_metric (self st) mus y, mcc_metric (self st) mus y) :: pairs).
    split.
    + constructor.
      * unfold step_metrics. now rewrite Hy, Hm.
      * rewrite Hself in Hpairs.
        eapply Forall2_impl; [|exact Hpairs]. intros b p Hp.
        cbn beta in Hp. rewrite <- Hp. symmetry. apply step_metrics_frame.
    + rewrite Hbest, Hself. reflexivity.
Qed.

(** X8. After a sequence of validation steps that all return, the running
    maxima are those of a linear scan over the metrics of the steps:
    [best_r2] is the maximum of its earlier value and every [r2] seen,
    [best_mcc] likewise, and [best_sum] the maximum of its earlier value and
    every [mcc + r2] seen. *)
Theorem running_maxima_match_linear_scan (batches : list Batch)
  (batch_idx : nat) (st st' : State) :
  validation_epoch batches batch_idx st = (Ok tt, st') ->
  exists pairs,
    Forall2 (fun batch p => step_metrics (self st) batch = Some p)
            batches pairs
    /\ best_r2 (best (self st'))
       = fold_left Rmax (map fst pairs) (best_r2 (best (self st)))
    /\ best_mcc (best (self st'))
       = fold_left Rmax (map snd pairs) (best_mcc (best (self st)))
    /\ best_sum (best (self st'))
       = fold_left Rmax (map (fun p => snd p + fst p) pairs)
                   (best_sum (best (self st))).
Proof.
  intros He. apply validation_epoch_folds in He.
  destruct He as (pairs & Hpairs & ->). exists pairs.
  split; [exact Hpairs|]. apply observe_fold_maxes.
Qed.

(** ** Construction *)

Lemma rmapM_total {A B : Type} (f : A -> result B) (g : A -> B) (l : list A) :
  (forall a, In a l -> f a = Ok (g a)) -> rmapM f l = Ok (map g l).
Proof.
  induction l as [|a l IH]; intros Hf; cbn; [reflexivity|].
  rewrite (Hf a) by (now left). cbn.
  rewrite IH by (intros a' Ha'; apply Hf; now right). reflexivity.
Qed.

Lemma rmapM_raise {A B : Type} (f : A -> result B) (l : list A)
  (e : exception) :
  rmapM f l = Raise e -> exists a, In a l /\ f a = Raise e.
Proof.
  induction l as [|a l IH]; cbn; [discriminate|].
  destruct (f a) as [b|e0] eqn:Hfa; cbn.
  - destruct (rmapM f l) as [bs|e1]; cbn; [discriminate|].
    intros Heq. inversion Heq; subst.
    destruct (IH eq_refl) as (a' & Ha' & Hfa'). exists a'. split; auto.
  - intros Heq. inversion Heq; subst. exists a. split; auto.
Qed.

Lemma init_spline_raise (args : Config) (i : nat) (e : exception) :
  init_spline args i = Raise e -> e = TorchError.
Proof.
  unfold init_spline, torch_load_path, load_state_dict.
  destruct (use_warm_start args); [|discriminate].
  destruct (spline_pth args) as [p|]; cbn.
  - destruct (torch_load p) as [sd|]; cbn.
    + destruct (state_dict_matches _ sd); [discriminate|].
      intros Heq. now inversion Heq.
    + intros Heq. now inversion Heq.
  - intros Heq. now inversion Heq.
Qed.

(** X10. Warm start is all or nothing: with [use_warm_start],
    [SSA.__init__] builds a module exactly when there is no flow to build
    ([nclass = 0], the checkpoint is then never read) or the checkpoint loads
    and matches the keys and shapes of every one of the [nclass] flows;
    otherwise it raises and no module exists. *)
Theorem warm_start_all_or_nothing (args : Config) :
  use_warm_start args = true ->
  ((exists s, SSA_init args = Ok s) <->
   (nclass args = 0%nat
    \/ exists sd,
         torch_load_path (spline_pth args) = Ok sd
         /\ forall i, (i < nclass args)%nat ->
              state_dict_matches (NormalizingFlow_init args i) sd = true))
  /\ (forall e, SSA_init args = Raise e -> e = TorchError).
Proof.
  intros Hwarm. split; [split|].
  - intros (s & Hs). unfold SSA_init in Hs. apply rbind_ok in Hs.
    destruct Hs as (splines & Hsp & _). apply rmapM_ok in Hsp.
    destruct (nclass args) as [|n] eqn:Hn; [now left|]. right.
    assert (Hall : forall i, (i < S n)%nat ->
              exists sd, torch_load_path (spline_pth args) = Ok sd
                /\ state_dict_matches (NormalizingFlow_init args i) sd = true).
    { intros i Hi.
      assert (Hex : exists f, init_spline args i = Ok f).
      { assert (Hin : In i (seq 0 (S n))) by (apply in_seq; lia).
        clear -Hsp Hin. induction Hsp as [|a f l fs Hf Hrest IH];
          [contradiction|]. destruct Hin as [<-|Hin]; eauto. }
      destruct Hex as (f & Hf). unfold init_spline in Hf.
      rewrite Hwarm in Hf. apply rbind_ok in Hf.
      destruct Hf as (sd & Hload & Hf). exists sd. split; [exact Hload|].
      unfold load_state_dict in Hf. cbn [flow_params] in Hf.
      now destruct (state_dict_matches _ sd). }
    destruct (Hall 0%nat) as (sd & Hload & _); [lia|].
    exists sd. split; [exact Hload|]. intros i Hi.
    destruct (Hall i Hi) as (sd' & Hload' & Hm).
    rewrite Hload in Hload'. now inversion Hload'; subst.
  - intros [Hzero|(sd & Hload & Hall)]; unfold SSA_init.
    + rewrite Hzero. cbn. eauto.
    + rewrite (rmapM_total (init_spline args) (fun _ => {| flow_params := sd |})).
      * cbn. eauto.
      * intros i Hi. apply in_seq in Hi. unfold init_spline.
        rewrite Hwarm, Hload. cbn. unfold load_state_dict.
        cbn [flow_params]. rewrite Hall by lia. reflexivity.
  - intros e He. unfold SSA_init in He.
    destruct (rmapM (init_spline args) (seq 0 (nclass args))) as [sp|e0] eqn:Hr;
      cbn in He; [discriminate|]. inversion He; subst.
    apply rmapM_raise in Hr. destruct Hr as (i & _ & Hi).
    now apply init_spline_raise in Hi.
Qed.

(** ** Indexing the flow bank *)

Lemma nth_error_skipn {A : Type} (l : list A) (n : nat) (a : A) :
  nth_error l n = Some a -> skipn n l = a :: skipn (S n) l.
Proof.
  revert l. induction n as [|n IH]; intros [|x l] Hn; cbn in *;
    try discriminate.
  - now inversion Hn.
  - now apply IH.
Qed.

Lemma flow_loop_in_range (splines : list NormalizingFlow)
  (residuals : tensor2) (k start : nat) :
  (start + k <= List.length splines)%nat ->
  rmapM (fun c =>
           match nth_error splines c with
           | Some spline =>
               Ok (NormalizingFlow_forward (flow_params spline) residuals)
           | None => Raise IndexError
           end)
        (seq start k)
  = Ok (map (fun spline =>
               NormalizingFlow_forward (flow_params spline) residuals)
            (firstn k (skipn start splines))).
Proof.
  revert start. induction k as [|k IH]; intros start Hk; cbn [seq rmapM];
    [reflexivity|].
  destruct (nth_error splines start) as [a|] eqn:Hnth;
    [|apply nth_error_None in Hnth; lia].
  cbn [rbind]. rewrite IH by lia. cbn [rbind].
  rewrite (nth_error_skipn _ _ _ Hnth). reflexivity.
Qed.

Lemma flow_loop_past_end (splines : list NormalizingFlow)
  (residuals : tensor2) (k start : nat) :
  (start <= List.length splines < start + k)%nat ->
  rmapM (fun c =>
           match nth_error splines c with
           | Some spline =>
               Ok (NormalizingFlow_forward (flow_params spline) residuals)
           | None => Raise IndexError
           end)
        (seq start k)
  = Raise IndexError.
Proof.
  revert start. induction k as [|k IH]; intros start Hk; [lia|].
  cbn [seq rmapM].
  destruct (nth_error splines start) as [a|] eqn:Hnth; cbn [rbind];
    [|reflexivity].
  assert (start < List.length splines)%nat
    by (apply nth_error_Some; congruence).
  rewrite IH by lia. reflexivity.
Qed.

(** X11. The loop [for c in range(self.nclass): self.spline_list[c](...)]
    applies the first [nclass] flows of the bank in order and never the
    flows beyond them; with fewer than [nclass] flows in the bank it raises
    [IndexError]. A module built by [SSA.__init__], with or without warm
    start, has exactly [nclass] flows, so on it the loop applies every flow
    once and the indexing does not fail. *)
Theorem flow_loop_indexes_the_bank (args : Config) (s : SSA)
  (splines : list NormalizingFlow) (n : nat) (residuals : tensor2) :
  ((n <= List.length splines)%nat ->
   flow_bank_outputs splines n residuals
   = Ok (map (fun spline =>
                NormalizingFlow_forward (flow_params spline) residuals)
             (firstn n splines)))
  /\ ((List.length splines < n)%nat ->
      flow_bank_outputs splines n residuals = Raise IndexError)
  /\ (SSA_init args = Ok s ->
      List.length (spline_list s) = nclass (cfg s)
      /\ flow_bank_outputs (spline_list s) (nclass (cfg s)) residuals
         = Ok (map (fun spline =>
                      NormalizingFlow_forward (flow_params spline) residuals)
                   (spline_list s))).
Proof.
  split; [|split].
  - intros Hn. unfold flow_bank_outputs.
    now rewrite flow_loop_in_range by lia.
  - intros Hn. unfold flow_bank_outputs. apply flow_loop_past_end. lia.
  - intros Hs. unfold SSA_init in Hs. apply rbind_ok in Hs.
    destruct Hs as (sp & Hsp & Hs). inversion Hs; subst; cbn [spline_list cfg].
    apply rmapM_ok, Forall2_length in Hsp. rewrite length_seq in Hsp.
    split; [now symmetry|]. rewrite Hsp. apply flow_bank_outputs_ok.
Qed.

(** ** [reparameterize] *)

Lemma normal_log_prob_reparameterized (m lv e : R) :
  normal_log_prob m (exp (lv / 2)) (m + e * exp (0.5 * lv))
  = - (e ^ 2) / 2 - lv / 2 - ln (sqrt (2 * PI)).
Proof.
  unfold normal_log_prob. replace (0.5 * lv) with (lv / 2) by lra.
  rewrite ln_exp. pose proof (exp_pos (lv / 2)) as Hpos.
  field. lra.
Qed.

Lemma log_prob_reparameterized_row (m lv e : tensor1) :
  List.length m = List.length lv ->
  List.length e = List.length lv ->
  map3 normal_log_prob m (map (fun v => exp (v / 2)) lv)
       (map2 Rplus m (map2 Rmult e (map (fun v => exp (0.5 * v)) lv)))
  = map2 (fun e lv => - (e ^ 2) / 2 - lv / 2 - ln (sqrt (2 * PI))) e lv.
Proof.
  revert lv e. induction m as [|a m IH]; intros [|b lv] [|c e] Hm He;
    cbn in *; try discriminate; [reflexivity|].
  rewrite normal_log_prob_reparameterized, IH by lia. reflexivity.
Qed.

(** X13. The log-density of a reparameterized sample under its own posterior
    depends on the noise and the log-variance only: for [mean], [logvar] and
    the draw [eps] of one shape,
    [Normal(mean, exp(logvar / 2)).log_prob(reparameterize(mean, logvar))] is
    [-eps^2 / 2 - logvar / 2 - log(sqrt(2 pi))] entry by entry, and the
    sample has the shape of [logvar]. Without random sampling the mean is
    returned. *)
Theorem reparameterized_log_density (eps mean logvar : tensor2) :
  shape2 mean = shape2 logvar ->
  shape2 eps = shape2 logvar ->
  log_prob (D_Normal mean (exp_half logvar))
           (reparameterize eps mean logvar true)
  = map2 (map2 (fun e lv => - (e ^ 2) / 2 - lv / 2 - ln (sqrt (2 * PI))))
         eps logvar
  /\ shape2 (reparameterize eps mean logvar true) = shape2 logvar
  /\ reparameterize eps mean logvar false = mean.
Proof.
  intros Hm He. split; [|split; [|reflexivity]].
  - unfold log_prob, reparameterize, exp_half. cbn [loc scale].
    revert logvar eps Hm He.
    induction mean as [|m mean IH]; intros [|lv logvar] [|e eps] Hm He;
      cbn in *; try discriminate; [reflexivity|].
    inversion Hm. inversion He.
    rewrite log_prob_reparameterized_row by assumption.
    rewrite IH by assumption. reflexivity.
  - unfold reparameterize, shape2 in *. revert logvar eps Hm He.
    induction mean as [|m mean IH]; intros [|lv logvar] [|e eps] Hm He;
      cbn in *; try discriminate; [reflexivity|].
    inversion Hm as [[Hm1 Hm2]]. inversion He as [[He1 He2]].
    rewrite IH by assumption. f_equal; try congruence.
    assert (Hmul : List.length
                     (map2 Rmult e (map (fun v => exp (0.5 * v)) lv))
                   = List.length e)
      by (apply map2_length; rewrite length_map; exact He1).
    rewrite map2_length; [congruence | rewrite Hmul; congruence].
Qed.

End MoreProperties.

(** * Further examples on the small instance *)

Lemma toy_empty_batch_raises :
  @training_step Toy.backend Toy.empty_batch 0 Toy.start
  = (Raise AssertionError, Toy.start).
Proof. rewrite training_step_eq. reflexivity. Qed.

Lemma toy_step_metrics (r2 mcc : R) (b : RunningBest) (v : option R) :
  @step_metrics Toy.backend (Toy.module_at b v) (Toy.batch_of r2 mcc)
  = Some (r2, mcc).
Proof. reflexivity. Qed.

Lemma toy_epoch_returns :
  exists st',
    @validation_epoch Toy.backend
      [Toy.batch_of 0.5 0.9; Toy.batch_of 0.6 0.1] 0 Toy.start = (Ok tt, st').
Proof.
  destruct (toy_validation_step 0.5 0.9 init_best None 0 [])
    as (l1 & [s1 sk1] & H1 & Hs1).
  cbn [self] in Hs1. subst s1.
  destruct (toy_validation_step 0.6 0.1 (update_best 0.5 0.9 init_best)
              (Some 0.5) 1 sk1) as (l2 & st2 & H2 & _).
  exists st2. cbn [validation_epoch]. unfold bind.
  change Toy.start with {| self := Toy.module_at init_best None; sink := [] |}.
  rewrite H1, H2. reflexivity.
Qed.

(** X1 on the toy module: the empty batch makes the training step raise and
    the state is the one it started from. *)
Lemma steps_raise_without_effect_witness :
  @training_step Toy.backend Toy.empty_batch 0 Toy.start
  = (Raise AssertionError, Toy.start)
  /\ Toy.start = Toy.start
  /\ self (snd (@training_step Toy.backend Toy.batch3 0 Toy.start))
     = self Toy.start.
Proof.
  split; [exact toy_empty_batch_raises|]. split.
  - exact (proj1 (@steps_raise_without_effect Toy.backend Toy.empty_batch
                    0%nat Toy.start)
                 AssertionError Toy.start toy_empty_batch_raises).
  - apply (@steps_raise_without_effect Toy.backend Toy.batch3 0%nat Toy.start).
Defined.

(** X4 on the toy module, which has two classes and no embedding: label 5
    stops the step. *)
Lemma label_out_of_range_raises_witness :
  @training_step Toy.backend
    {| batch_x := [[0; 3]]; batch_c := [5%Z]; batch_y := Some [[1; 1]] |}
    0 Toy.start
  = (Raise TorchError, Toy.start).
Proof.
  refine (proj1 (@label_out_of_range_raises Toy.backend
                   {| batch_x := [[0; 3]]; batch_c := [5%Z];
                      batch_y := Some [[1; 1]] |} 0%nat Toy.start
                   eq_refl _ _ eq_refl)).
  - discriminate.
  - cbn. auto.
Defined.

(** X5 on a first validation step of the toy module. *)
Lemma validation_step_log_entries_witness :
  exists loss st' entries,
    @validation_step Toy.backend (Toy.batch_of 0.5 0.9) 0 Toy.start
    = (Ok loss, st')
    /\ sink st' = sink Toy.start ++ entries
    /\ List.length entries = 12%nat
    /\ nth_error (map snd entries) 2 = Some loss.
Proof.
  destruct (toy_validation_step 0.5 0.9 init_best None 0 [])
    as (loss & st' & Hv & _).
  destruct (@validation_step_log_entries Toy.backend (Toy.batch_of 0.5 0.9)
              0%nat Toy.start loss st' Hv)
    as (entries & Hsink & Hnames & Hloss & _).
  exists loss, st', entries. repeat split; auto.
  rewrite <- (length_map fst), Hnames. reflexivity.
Defined.

(** X6 on the toy module and the two steps of the example above. *)
Lemma best_sum_is_sum_of_its_parts_witness :
  @SSA_init Toy.backend (Toy.args "adam" false) = Ok (Toy.module "adam" false)
  /\ sum_split (best (Toy.module "adam" false))
  /\ sum_split
       (best (self (snd (@validation_epoch Toy.backend
                           [Toy.batch_of 0.5 0.9; Toy.batch_of 0.6 0.1] 0
                           Toy.start)))).
Proof.
  destruct (@best_sum_is_sum_of_its_parts Toy.backend (Toy.args "adam" false)
              (Toy.module "adam" false)
              [Toy.batch_of 0.5 0.9; Toy.batch_of 0.6 0.1]
              Toy.batch3 0%nat Toy.start) as (Hinit & Hkeep).
  split; [reflexivity|]. split; [exact (Hinit eq_refl)|].
  apply Hkeep. exact (Hinit eq_refl).
Defined.

(** X7 on the same module and steps. *)
Lemma running_records_stay_ordered_witness :
  @SSA_init Toy.backend (Toy.args "adam" false) = Ok (Toy.module "adam" false)
  /\ records_ordered (best (Toy.module "adam" false))
  /\ records_ordered
       (best (self (snd (@validation_epoch Toy.backend
                           [Toy.batch_of 0.5 0.9; Toy.batch_of 0.6 0.1] 0
                           Toy.start)))).
Proof.
  destruct (@running_records_stay_ordered Toy.backend (Toy.args "adam" false)
              (Toy.module "adam" false)
              [Toy.batch_of 0.5 0.9; Toy.batch_of 0.6 0.1]
              Toy.batch3 0%nat Toy.start) as (Hinit & Hkeep).
  split; [reflexivity|]. split; [exact (Hinit eq_refl)|].
  apply Hkeep. exact (Hinit eq_refl).
Defined.

(** X8 on the same steps: the maxima are those of the scan over
    [(0.5, 0.9)] and [(0.6, 0.1)]. *)
Lemma running_maxima_match_linear_scan_witness :
  exists st',
    @validation_epoch Toy.backend
      [Toy.batch_of 0.5 0.9; Toy.batch_of 0.6 0.1] 0 Toy.start = (Ok tt, st')
    /\ best_r2 (best (self st')) = fold_left Rmax [0.5; 0.6] 0
    /\ best_mcc (best (self st')) = fold_left Rmax [0.9; 0.1] 0
    /\ best_sum (best (self st')) = fold_left Rmax [0.9 + 0.5; 0.1 + 0.6] 0.
Proof.
  destruct toy_epoch_returns as (st' & He). exists st'. split; [exact He|].
  destruct (@running_maxima_match_linear_scan Toy.backend _ _ _ _ He)
    as (pairs & Hpairs & Hr2 & Hmcc & Hsum).
  inversion Hpairs as [|b1 p1 l1 ps1 Hp1 Hrest1]; subst.
  inversion Hrest1 as [|b2 p2 l2 ps2 Hp2 Hrest2]; subst.
  inversion Hrest2; subst.
  change (self Toy.start) with (Toy.module_at init_best None) in Hp1, Hp2.
  rewrite toy_step_metrics in Hp1, Hp2.
  inversion Hp1; inversion Hp2; subst.
  rewrite Hr2, Hmcc, Hsum. repeat split; reflexivity.
Defined.

(** X10 on the toy arguments with warm start: the checkpoint loads and
    matches both flows, so the module is built. *)
Lemma warm_start_all_or_nothing_witness :
  exists s, @SSA_init Toy.backend (Toy.args "adam" true) = Ok s.
Proof.
  apply (proj1 (@warm_start_all_or_nothing Toy.backend (Toy.args "adam" true)
                  eq_refl)).
  right. exists 2. split; [reflexivity|]. intros i _. reflexivity.
Defined.

(** X11 on the toy module: it has its two flows; a loop over three classes
    runs past them, and the module as built applies both. *)
Lemma flow_loop_indexes_the_bank_witness :
  @flow_bank_outputs Toy.backend (spline_list (Toy.module "adam" false)) 3
    [[1]] = Raise IndexError
  /\ List.length (spline_list (Toy.module "adam" false)) = 2%nat
  /\ @flow_bank_outputs Toy.backend (spline_list (Toy.module "adam" false)) 2
       [[1]]
     = Ok [([[INR 1 * 1]], [INR 1 * ln (Rabs (INR 1))]);
           ([[INR 2 * 1]], [INR 1 * ln (Rabs (INR 2))])].
Proof.
  destruct (@flow_loop_indexes_the_bank Toy.backend (Toy.args "adam" false)
              (Toy.module "adam" false)
              (spline_list (Toy.module "adam" false)) 3 [[1]])
    as (_ & Hpast & Hinit).
  split; [apply Hpast; cbn; lia|].
  destruct (Hinit eq_refl) as (Hlen & Hall).
  split; [exact Hlen | exact Hall].
Defined.

(** X13 on a one-row sample with zero log-variance. *)
Lemma reparameterized_log_density_witness :
  log_prob (D_Normal [[1; 2]] (exp_half [[0; 0]]))
           (reparameterize [[3; 4]] [[1; 2]] [[0; 0]] true)
  = [[- (3 ^ 2) / 2 - 0 / 2 - ln (sqrt (2 * PI));
      - (4 ^ 2) / 2 - 0 / 2 - ln (sqrt (2 * PI))]].
Proof.
  exact (proj1 (reparameterized_log_density [[3; 4]] [[1; 2]] [[0; 0]]
                  eq_refl eq_refl)).
Defined.
